(** * Lab appointment booking backend: a shallow embedding and its properties

    The development follows the server sources: [schema.ts] (zod schemas),
    [db/schema.ts] (the appointments table), the handlers
    [create_appointment], [get_appointments], [get_appointment_by_id],
    [update_appointment_status], [export_appointments_csv], [send_reminders],
    [authenticate_admin] and the router of [index.ts].

    Conventions.
    - A JavaScript [Date] is its epoch value in milliseconds, a [Z]; the
      invalid date, which the schemas refuse, has none and is left out.
    - [string | null] is [option string]; an optional property ([notes?]) adds
      one more [option] around the type, [None] standing for [undefined].
    - A JavaScript string is a [string] of code units below 256; the
      strings of the inputs are taken to hold no NUL, which a [text] column
      does not store.
    - The table is the list of its rows in heap order; a query without
      [ORDER BY] scans it front to back.
    - Every handler receives the clock reading [now] of the call; the several
      [new Date()] of one call are identified with it.
    - The process time zone is a fixed offset [tz] east of UTC, in
      milliseconds (Asia/Kolkata, named in the sources, has no daylight
      saving time).
    - What the sources take from outside is a parameter of the function
      that uses it: the e-mail format check of the validation library, the
      conversion of a fractional number to a string, the value of the
      environment variable [ADMIN_PASS], the delivery of a notification, and
      what a [real] column keeps of a number written to it.

    The model comes first, then the vocabulary and the sample data of the
    properties, then the properties, one part for each handler. *)

From Stdlib Require Import ZArith List String Ascii Bool Lia.
From Stdlib Require Import Permutation Sorted.
From Stdlib Require Import Floats.SpecFloat DecimalString.
Import ListNotations.

Local Open Scope string_scope.
Local Open Scope Z_scope.

(** ** JavaScript built-ins used by the handlers *)

Module Js.

Definition dquote : ascii := "034"%char.
Definition comma : ascii := ","%char.
Definition LF : ascii := "010"%char.
Definition CR : ascii := "013"%char.

(** [if (v)] on a [string | null]: only a non-empty string is truthy. *)
Definition truthy (v : option string) : bool :=
  match v with
  | Some (String _ _) => true
  | _ => false
  end.

(** [s.includes(c)] for a one-character needle. *)
Fixpoint includes (s : string) (c : ascii) : bool :=
  match s with
  | EmptyString => false
  | String x s' => Ascii.eqb x c || includes s' c
  end.

(** [s.replace] of every double quote by two of them. *)
Fixpoint double_quotes (s : string) : string :=
  match s with
  | EmptyString => EmptyString
  | String x s' =>
      if Ascii.eqb x dquote
      then String dquote (String dquote (double_quotes s'))
      else String x (double_quotes s')
  end.

(** [parts.join(sep)]. *)
Definition join (sep : string) (parts : list string) : string :=
  String.concat sep parts.

(** The white space and line terminators below 256 that [trim] strips: TAB,
    LF, VT, FF, CR, SP and NBSP. *)
Definition is_space (c : ascii) : bool :=
  let n := nat_of_ascii c in
  (Nat.leb 9 n && Nat.leb n 13) || Nat.eqb n 32 || Nat.eqb n 160.

Fixpoint trimStart (s : string) : string :=
  match s with
  | EmptyString => EmptyString
  | String c s' => if is_space c then trimStart s' else s
  end.

Fixpoint trimEnd (s : string) : string :=
  match s with
  | EmptyString => EmptyString
  | String c s' =>
      match trimEnd s' with
      | EmptyString => if is_space c then EmptyString else String c EmptyString
      | t => String c t
      end
  end.

Definition trim (s : string) : string := trimEnd (trimStart s).

(** Case folding of one code unit, letters A to Z only. *)
Definition lower (c : ascii) : ascii :=
  let n := nat_of_ascii c in
  if Nat.leb 65 n && Nat.leb n 90 then ascii_of_nat (n + 32) else c.

(** [s.split(c)[0]]: the part before the first [c]. *)
Fixpoint before (c : ascii) (s : string) : string :=
  match s with
  | EmptyString => EmptyString
  | String x s' => if Ascii.eqb x c then EmptyString else String x (before c s')
  end.

(** [s.split(c)] for a one-character separator. *)
Fixpoint split (c : ascii) (s : string) : list string :=
  match s with
  | EmptyString => [EmptyString]
  | String x s' =>
      if Ascii.eqb x c then EmptyString :: split c s'
      else match split c s' with
           | [] => [String x EmptyString]
           | h :: t => String x h :: t
           end
  end.

(** [String(n)] for an integral number. *)
Definition String_of_int (n : Z) : string :=
  NilZero.string_of_int (Z.to_int n).

Fixpoint zeros (k : nat) : string :=
  match k with
  | O => EmptyString
  | S k' => String "0" (zeros k')
  end.

(** [String(n).padStart(width, '0')] for [0 <= n]. *)
Definition pad (width : nat) (n : Z) : string :=
  let digits := String_of_int n in
  (zeros (width - String.length digits) ++ digits)%string.

(** Year, month and day of a day number counted from 1970-01-01, in the
    proleptic Gregorian calendar. *)
Definition civil (days : Z) : Z * Z * Z :=
  let z := days + 719468 in
  let era := z / 146097 in
  let doe := z mod 146097 in
  let yoe := (doe - doe / 1460 + doe / 36524 - doe / 146096) / 365 in
  let doy := doe - (365 * yoe + yoe / 4 - yoe / 100) in
  let mp := (5 * doy + 2) / 153 in
  let d := doy - (153 * mp + 2) / 5 + 1 in
  let m := if mp <? 10 then mp + 3 else mp - 9 in
  let y := yoe + era * 400 + (if m <=? 2 then 1 else 0) in
  (y, m, d).

(** [d.toISOString()] of a valid [Date]: the UTC fields, with a signed
    year of six digits outside the years 0 to 9999. *)
Definition toISOString (d : Z) : string :=
  let '(y, m, day) := civil (d / 86400000) in
  let t := d mod 86400000 in
  let year :=
    if (0 <=? y) && (y <=? 9999) then pad 4 y
    else if y <? 0 then String "-" (pad 6 (- y))
    else String "+" (pad 6 y) in
  (year ++ "-" ++ pad 2 m ++ "-" ++ pad 2 day
   ++ "T" ++ pad 2 (t / 3600000) ++ ":" ++ pad 2 (t / 60000 mod 60)
   ++ ":" ++ pad 2 (t / 1000 mod 60) ++ "." ++ pad 3 (t mod 1000)
   ++ "Z")%string.

End Js.

(** ** The data model ([schema.ts], [db/schema.ts]) *)

Inductive AppointmentStatus : Type :=
  | Received
  | Contacted
  | Confirmed
  | Completed
  | Cancelled.

Definition AppointmentStatus_eqb (a b : AppointmentStatus) : bool :=
  match a, b with
  | Received, Received
  | Contacted, Contacted
  | Confirmed, Confirmed
  | Completed, Completed
  | Cancelled, Cancelled => true
  | _, _ => false
  end.

(** Epoch milliseconds. *)
Definition Date : Type := Z.

(** A JavaScript number that need not be integral (a binary64 value). *)
Definition JsNumber : Type := spec_float.

Record Appointment : Type := {
  id : Z;
  name : string;
  phone : option string;
  email : option string;
  tests : list string;
  preferred_date : Date;
  notes : option string;
  address_house_no : option string;
  address_house_name : option string;
  address_street : option string;
  address_locality : option string;
  address_city : option string;
  address_state : option string;
  address_pincode : option string;
  lat : option JsNumber;
  lng : option JsNumber;
  status : AppointmentStatus;
  created_at : Date;
  updated_at : Date;
  last_reminder_sent_at : option Date;
  slot_hint : option string;
  fasting_required : bool
}.

Module CreateAppointmentInput.
Record t : Type := {
  name : string;
  phone : option string;
  email : option string;
  tests : list string;
  preferred_date : Date;
  notes : option string;
  address_house_no : option string;
  address_house_name : option string;
  address_street : option string;
  address_locality : option string;
  address_city : option string;
  address_state : option string;
  address_pincode : option string;
  lat : option JsNumber;
  lng : option JsNumber;
  slot_hint : option string
}.
End CreateAppointmentInput.

Module UpdateAppointmentStatusInput.
Record t : Type := {
  id : Z;
  status : AppointmentStatus;
  notes : option (option string)
}.
End UpdateAppointmentStatusInput.

Module GetAppointmentsFilter.
Record t : Type := {
  status : option AppointmentStatus;
  startDate : option Date;
  endDate : option Date;
  search : option string
}.
End GetAppointmentsFilter.

Module AdminAuthInput.
Record t : Type := { password : string }.
End AdminAuthInput.

Record AdminAuthResponse : Type := {
  success : bool;
  message : string
}.

Module AppointmentCreatedResponse.
Record t : Type := {
  success : bool;
  message : string;
  appointment : Appointment
}.
End AppointmentCreatedResponse.

(** The [set] object of an [UPDATE]: a column that is [None] is left alone. *)
Record UpdateValues : Type := {
  set_status : option AppointmentStatus;
  set_notes : option (option string);
  set_updated_at : option Date;
  set_last_reminder_sent_at : option (option Date)
}.

Definition assign {A : Type} (new : option A) (old : A) : A :=
  match new with
  | Some v => v
  | None => old
  end.

Definition apply_set (v : UpdateValues) (r : Appointment) : Appointment :=
  {| id := id r;
     name := name r;
     phone := phone r;
     email := email r;
     tests := tests r;
     preferred_date := preferred_date r;
     notes := assign (set_notes v) (notes r);
     address_house_no := address_house_no r;
     address_house_name := address_house_name r;
     address_street := address_street r;
     address_locality := address_locality r;
     address_city := address_city r;
     address_state := address_state r;
     address_pincode := address_pincode r;
     lat := lat r;
     lng := lng r;
     status := assign (set_status v) (status r);
     created_at := created_at r;
     updated_at := assign (set_updated_at v) (updated_at r);
     last_reminder_sent_at :=
       assign (set_last_reminder_sent_at v) (last_reminder_sent_at r);
     slot_hint := slot_hint r;
     fasting_required := fasting_required r |}.

(** ** The query layer (drizzle-orm over PostgreSQL) *)

Module Sql.

Definition Condition : Type := Appointment -> bool.

Definition eq_status (v : AppointmentStatus) : Condition :=
  fun r => AppointmentStatus_eqb (status r) v.

Definition eq_id (v : Z) : Condition := fun r => id r =? v.

Definition gte (col : Appointment -> Date) (v : Date) : Condition :=
  fun r => v <=? col r.

Definition lte (col : Appointment -> Date) (v : Date) : Condition :=
  fun r => col r <=? v.

(** A comparison with a NULL column is not true. *)
Definition lte_nullable (col : Appointment -> option Date) (v : Date)
  : Condition :=
  fun r => match col r with
           | Some d => d <=? v
           | None => false
           end.

Definition isNull {A : Type} (col : Appointment -> option A) : Condition :=
  fun r => match col r with
           | Some _ => false
           | None => true
           end.

Definition and_ (conds : list Condition) : Condition :=
  fun r => forallb (fun c => c r) conds.

Definition or_ (conds : list Condition) : Condition :=
  fun r => existsb (fun c => c r) conds.

(** [LIKE]: a percent sign matches any run of code units, an underscore any
    single one, and a backslash takes the next pattern unit literally. *)
Fixpoint like (p : string) (s : string) {struct p} : bool :=
  match p with
  | EmptyString =>
      match s with
      | EmptyString => true
      | String _ _ => false
      end
  | String c p' =>
      if Ascii.eqb c "%" then
        (fix skip (s : string) : bool :=
           like p' s
           || match s with
              | EmptyString => false
              | String _ s' => skip s'
              end) s
      else if Ascii.eqb c "_" then
        match s with
        | EmptyString => false
        | String _ s' => like p' s'
        end
      else if Ascii.eqb c "092" then
        match p' with
        | EmptyString => false
        | String d p'' =>
            match s with
            | EmptyString => false
            | String x s' => Ascii.eqb x d && like p'' s'
            end
        end
      else
        match s with
        | EmptyString => false
        | String x s' => Ascii.eqb x c && like p' s'
        end
  end.

Fixpoint toLower (s : string) : string :=
  match s with
  | EmptyString => EmptyString
  | String c s' => String (Js.lower c) (toLower s')
  end.

(** [col ILIKE pattern]; on a NULL column the comparison is not true. *)
Definition ilike (col : Appointment -> option string) (pattern : string)
  : Condition :=
  fun r => match col r with
           | Some v => like (toLower pattern) (toLower v)
           | None => false
           end.

(** [SELECT * FROM appointments WHERE cond], in heap order. *)
Definition select_where (cond : Condition) (table : list Appointment)
  : list Appointment :=
  filter cond table.

(** [ORDER BY key DESC], as a stable insertion sort: rows with equal keys
    keep their heap order.  PostgreSQL promises less, see
    [order_by_desc_result]. *)
Fixpoint insert_desc (key : Appointment -> Z) (r : Appointment)
    (sorted : list Appointment) : list Appointment :=
  match sorted with
  | [] => [r]
  | x :: rest =>
      if key x <=? key r then r :: sorted
      else x :: insert_desc key r rest
  end.

Definition order_by_desc (key : Appointment -> Z) (rows : list Appointment)
  : list Appointment :=
  fold_right (insert_desc key) [] rows.

Definition sorted_desc (key : Appointment -> Z) (rows : list Appointment)
  : Prop :=
  StronglySorted (fun a b => key b <= key a) rows.

(** What SQL promises of [ORDER BY key DESC] and nothing more: the rows of
    the input, each as often as it occurs there, with keys descending.
    The order among rows of equal key is the engine's choice. *)
Definition order_by_desc_result (key : Appointment -> Z)
    (rows result : list Appointment) : Prop :=
  Permutation rows result /\ sorted_desc key result.

(** [UPDATE appointments SET v WHERE cond RETURNING *]: the new table and
    the rows returned. *)
Definition update_where (cond : Condition) (v : UpdateValues)
    (table : list Appointment) : list Appointment * list Appointment :=
  (map (fun r => if cond r then apply_set v r else r) table,
   map (apply_set v) (filter cond table)).

End Sql.

(** The database: the appointments table and the sequence behind its
    [serial] primary key. *)
Record Database : Type := {
  appointmentsTable : list Appointment;
  appointments_id_seq : Z
}.

(** The columns [lat] and [lng] are [real], single precision, while the
    handlers write and read doubles.  What the engine and the driver make
    of a double on its way into such a column and back is taken from
    outside: [real x] is the number read back after [x] was written, and
    [None] says that the engine refuses [x], as it does a finite number
    beyond the range of the type, so that the statement fails. *)
Definition RealColumn : Type := JsNumber -> option JsNumber.

(** A nullable [real] column: NULL is stored as it is. *)
Definition real_value (real : RealColumn) (v : option JsNumber)
  : option (option JsNumber) :=
  match v with
  | None => Some None
  | Some x => option_map Some (real x)
  end.

(** ** Dates *)

Definition MS_PER_DAY : Z := 24 * 60 * 60 * 1000.

(** [d.setHours(0, 0, 0, 0)]: local midnight of the day of [d]. *)
Definition setHours0 (tz : Z) (d : Date) : Date :=
  d - (d + tz) mod MS_PER_DAY.

(** [d.setDate(d.getDate() + 1)]: the same local time, one day later. *)
Definition nextDate (d : Date) : Date := d + MS_PER_DAY.

(** ** Input validation ([createAppointmentInputSchema]) *)

Record Issue : Type := {
  issue_path : string;
  issue_message : string
}.

(** [z.number()] takes every number but NaN, which it reports as a value
    of the wrong type. *)
Definition z_number (x : JsNumber) : bool :=
  match x with
  | S754_nan => false
  | _ => true
  end.

(** The issue of [z.number().nullable()] at the given path. *)
Definition number_issues (path : string) (v : option JsNumber)
  : list Issue :=
  match v with
  | Some x =>
      if z_number x then []
      else [{| issue_path := path;
               issue_message := "Expected number, received nan" |}]
  | None => []
  end.

(** The issues of the object schema, in the order of its fields.  Field
    types are those of [CreateAppointmentInput.t], so only the checks
    beyond typing remain: name, e-mail and tests, and that a coordinate is
    not NaN.  [is_email] stands for the e-mail format check of the
    validation library. *)
Definition field_issues (is_email : string -> bool)
    (data : CreateAppointmentInput.t) : list Issue :=
  ((match CreateAppointmentInput.name data with
    | EmptyString => [{| issue_path := "name";
                         issue_message := "Name is required" |}]
    | String _ _ => []
    end)
   ++ (match CreateAppointmentInput.email data with
       | Some e =>
           if is_email e then []
           else [{| issue_path := "email";
                    issue_message := "Invalid email format" |}]
       | None => []
       end)
   ++ (match CreateAppointmentInput.tests data with
       | [] => [{| issue_path := "tests";
                   issue_message := "At least one test is required" |}]
       | _ :: _ => []
       end)
   ++ number_issues "lat" (CreateAppointmentInput.lat data)
   ++ number_issues "lng" (CreateAppointmentInput.lng data))%list.

(** A value of the wrong type aborts the parse of the object, a failed
    check of a well-typed value does not. *)
Definition aborted (data : CreateAppointmentInput.t) : bool :=
  negb (match CreateAppointmentInput.lat data with
        | Some x => z_number x
        | None => true
        end
        && match CreateAppointmentInput.lng data with
           | Some x => z_number x
           | None => true
           end).

(** The issues of the three [refine] steps, in the order they are
    chained. *)
Definition refine_issues (tz : Z) (now : Date)
    (data : CreateAppointmentInput.t) : list Issue :=
  let today := setHours0 tz now in
  ((match CreateAppointmentInput.phone data,
           CreateAppointmentInput.email data with
    | None, None =>
        [{| issue_path := "phone";
            issue_message := "At least one of phone or email is required" |}]
    | _, _ => []
    end)
   ++ (if today <=? CreateAppointmentInput.preferred_date data then []
       else [{| issue_path := "preferred_date";
                issue_message := "Preferred date cannot be in the past" |}])
   ++ (let hasMapPin :=
         match CreateAppointmentInput.lat data,
               CreateAppointmentInput.lng data with
         | Some _, Some _ => true
         | _, _ => false
         end in
       let hasMinimalAddress :=
         match CreateAppointmentInput.address_street data,
               CreateAppointmentInput.address_locality data,
               CreateAppointmentInput.address_city data with
         | Some _, Some _, Some _ => true
         | _, _, _ => false
         end in
       if hasMapPin || hasMinimalAddress then []
       else [{| issue_path := "lat";
                issue_message :=
                  "Address requires either a map pin or street, locality, and city" |}])
  )%list.

(** The schema, as the list of issues it raises; the input is accepted when
    there is none.  The [refine] steps run on the parsed object: after a
    failed check of a field they still run, after an aborted parse they do
    not. *)
Definition createAppointmentInputSchema (is_email : string -> bool)
    (tz : Z) (now : Date) (data : CreateAppointmentInput.t) : list Issue :=
  if aborted data then field_issues is_email data
  else (field_issues is_email data ++ refine_issues tz now data)%list.

(** ** Handlers *)

(** [arr.includes(x)] on an array of strings. *)
Definition Array_includes (arr : list string) (x : string) : bool :=
  existsb (fun y => String.eqb y x) arr.

Definition fastingTests : list string := ["CBC"; "KFT"; "Lipid Profile"].

(** The row [INSERT ... RETURNING] forms from the values of the handler,
    with the coordinates as the [real] columns hold them.  It takes [id]
    from the sequence, [created_at] and [updated_at] from the column
    default [now()] and [last_reminder_sent_at] from its default NULL. *)
Definition insert_returning (now : Date) (db : Database)
    (input : CreateAppointmentInput.t) (fasting_required : bool)
    (lat' lng' : option JsNumber) : Appointment * Database :=
  let appointment :=
    {| id := appointments_id_seq db;
       name := CreateAppointmentInput.name input;
       phone := CreateAppointmentInput.phone input;
       email := CreateAppointmentInput.email input;
       tests := CreateAppointmentInput.tests input;
       preferred_date := CreateAppointmentInput.preferred_date input;
       notes := CreateAppointmentInput.notes input;
       address_house_no := CreateAppointmentInput.address_house_no input;
       address_house_name := CreateAppointmentInput.address_house_name input;
       address_street := CreateAppointmentInput.address_street input;
       address_locality := CreateAppointmentInput.address_locality input;
       address_city := CreateAppointmentInput.address_city input;
       address_state := CreateAppointmentInput.address_state input;
       address_pincode := CreateAppointmentInput.address_pincode input;
       lat := lat';
       lng := lng';
       status := Received;
       created_at := now;
       updated_at := now;
       last_reminder_sent_at := None;
       slot_hint := CreateAppointmentInput.slot_hint input;
       fasting_required := fasting_required |} in
  (appointment,
   {| appointmentsTable := (appointmentsTable db ++ [appointment])%list;
      appointments_id_seq := appointments_id_seq db + 1 |}).

(** [handlers/create_appointment.ts].  The handler returns the row the
    insert returns, and the new database with it; [None] stands for the
    exception it rethrows when the insert fails, which leaves the database
    as it was. *)
Definition createAppointment (real : RealColumn) (now : Date)
    (db : Database) (input : CreateAppointmentInput.t)
  : option (Appointment * Database) :=
  let fasting_required :=
    existsb (fun test => Array_includes fastingTests test)
            (CreateAppointmentInput.tests input) in
  match real_value real (CreateAppointmentInput.lat input),
        real_value real (CreateAppointmentInput.lng input) with
  | Some lat', Some lng' =>
      Some (insert_returning now db input fasting_required lat' lng')
  | _, _ => None
  end.

(** The [where] argument both list handlers build from their conditions:
    none leaves the base query, one is used as it is, several are joined by
    [and]. *)
Definition select_conditions (conditions : list Sql.Condition)
    (table : list Appointment) : list Appointment :=
  match conditions with
  | [] => table
  | [c] => Sql.select_where c table
  | _ => Sql.select_where (Sql.and_ conditions) table
  end.

Definition search_condition (term : string) : Sql.Condition :=
  let searchTerm := ("%" ++ term ++ "%")%string in
  Sql.or_ [Sql.ilike (fun r => Some (name r)) searchTerm;
           Sql.ilike phone searchTerm;
           Sql.ilike email searchTerm].

(** [handlers/get_appointments.ts]: the conditions of a filter. *)
Definition getAppointments_conditions (filter : option GetAppointmentsFilter.t)
  : list Sql.Condition :=
  match filter with
  | None => []
  | Some f =>
      ((match GetAppointmentsFilter.status f with
        | Some s => [Sql.eq_status s]
        | None => []
        end)
       ++ (match GetAppointmentsFilter.startDate f with
           | Some d => [Sql.gte preferred_date d]
           | None => []
           end)
       ++ (match GetAppointmentsFilter.endDate f with
           | Some d => [Sql.lte preferred_date d]
           | None => []
           end)
       ++ (match GetAppointmentsFilter.search f with
           | Some s =>
               if Js.truthy (Some s) && Js.truthy (Some (Js.trim s))
               then [search_condition (Js.trim s)]
               else []
           | None => []
           end))%list
  end.

(** The rows the query of [getAppointments] selects, before ordering. *)
Definition getAppointments_rows (table : list Appointment)
    (filter : option GetAppointmentsFilter.t) : list Appointment :=
  select_conditions (getAppointments_conditions filter) table.

(** [getAppointments]: the selected rows under [ORDER BY created_at DESC]. *)
Definition getAppointments (table : list Appointment)
    (filter : option GetAppointmentsFilter.t) : list Appointment :=
  Sql.order_by_desc created_at (getAppointments_rows table filter).

(** Every answer the database may give to the query of [getAppointments]. *)
Definition getAppointments_result (table : list Appointment)
    (filter : option GetAppointmentsFilter.t) (result : list Appointment)
  : Prop :=
  Sql.order_by_desc_result created_at (getAppointments_rows table filter)
                           result.

(** [handlers/update_appointment_status.ts]. *)
Definition updateAppointmentStatus (now : Date) (db : Database)
    (input : UpdateAppointmentStatusInput.t) : option Appointment * Database :=
  let updateValues :=
    {| set_status := Some (UpdateAppointmentStatusInput.status input);
       set_notes := UpdateAppointmentStatusInput.notes input;
       set_updated_at := Some now;
       set_last_reminder_sent_at := None |} in
  let '(table, result) :=
    Sql.update_where (Sql.eq_id (UpdateAppointmentStatusInput.id input))
                     updateValues (appointmentsTable db) in
  (match result with
   | [] => None
   | appointment :: _ => Some appointment
   end,
   {| appointmentsTable := table;
      appointments_id_seq := appointments_id_seq db |}).

(** [handlers/authenticate_admin.ts]; [ADMIN_PASS] is the value of the
    environment variable, [None] when it is not set. *)
Definition authenticateAdmin (ADMIN_PASS : option string)
    (input : AdminAuthInput.t) : AdminAuthResponse :=
  if negb (Js.truthy ADMIN_PASS) then
    {| success := false; message := "Authentication system not configured" |}
  else
    let isValid :=
      match ADMIN_PASS with
      | Some adminPassword =>
          String.eqb (AdminAuthInput.password input) adminPassword
      | None => false
      end in
    {| success := isValid;
       message := if isValid then "Authentication successful"
                  else "Invalid password" |}.

(** ** CSV export ([handlers/export_appointments_csv.ts]) *)

(** The values [escapeCSV] is applied to. *)
Inductive JsValue : Type :=
  | JsNull
  | JsUndefined
  | JsNum (n : Z)
  | JsStr (s : string).

Definition nullable (v : option string) : JsValue :=
  match v with
  | Some s => JsStr s
  | None => JsNull
  end.

(** [String(value)] for a value that is neither null nor undefined. *)
Definition String_of (value : JsValue) : string :=
  match value with
  | JsNum n => Js.String_of_int n
  | JsStr s => s
  | JsNull => "null"
  | JsUndefined => "undefined"
  end.

Definition escapeCSV (value : JsValue) : string :=
  match value with
  | JsNull | JsUndefined => ""
  | _ =>
      let str := String_of value in
      if Js.includes str Js.comma || Js.includes str Js.dquote
         || Js.includes str Js.LF || Js.includes str Js.CR
      then String Js.dquote (Js.double_quotes str ++ String Js.dquote "")
      else str
  end.

Definition formatAddress (appointment : Appointment) : string :=
  let addressParts :=
    filter Js.truthy
      [address_house_no appointment;
       address_house_name appointment;
       address_street appointment;
       address_locality appointment;
       address_city appointment;
       address_state appointment;
       address_pincode appointment] in
  Js.join ", " (map (fun part => match part with
                                 | Some s => s
                                 | None => ""
                                 end) addressParts).

(** [number_toString] stands for the conversion of a number to a string. *)
Definition formatCoordinates (number_toString : JsNumber -> string)
    (lat lng : option JsNumber) : string :=
  match lat, lng with
  | Some la, Some ln => number_toString la ++ ", " ++ number_toString ln
  | _, _ => ""
  end.

Definition AppointmentStatus_name (s : AppointmentStatus) : string :=
  match s with
  | Received => "Received"
  | Contacted => "Contacted"
  | Confirmed => "Confirmed"
  | Completed => "Completed"
  | Cancelled => "Cancelled"
  end.

Definition csv_headers : list string :=
  ["ID"; "Name"; "Phone"; "Email"; "Tests"; "Preferred Date"; "Status";
   "Address"; "Coordinates"; "Notes"; "Slot Hint"; "Fasting Required";
   "Created At"; "Updated At"; "Last Reminder Sent"].

(** The conditions [exportAppointmentsCSV] builds from a filter. *)
Definition exportAppointmentsCSV_conditions
    (filter : option GetAppointmentsFilter.t) : list Sql.Condition :=
  ((match option_map GetAppointmentsFilter.status filter with
    | Some (Some s) => [Sql.eq_status s]
    | _ => []
    end)
   ++ (match option_map GetAppointmentsFilter.startDate filter with
       | Some (Some d) => [Sql.gte preferred_date d]
       | _ => []
       end)
   ++ (match option_map GetAppointmentsFilter.endDate filter with
       | Some (Some d) => [Sql.lte preferred_date d]
       | _ => []
       end)
   ++ (match option_map GetAppointmentsFilter.search filter with
       | Some (Some s) =>
           if Js.truthy (Some s) then [search_condition s] else []
       | _ => []
       end))%list.

(** The rows the export renders, in the order it renders them: the query
    carries no [ORDER BY]. *)
Definition exportAppointmentsCSV_rows (table : list Appointment)
    (filter : option GetAppointmentsFilter.t) : list Appointment :=
  select_conditions (exportAppointmentsCSV_conditions filter) table.

(** One data row. *)
Definition csv_row (number_toString : JsNumber -> string)
    (appointment : Appointment) : list string :=
  [escapeCSV (JsNum (id appointment));
   escapeCSV (JsStr (name appointment));
   escapeCSV (nullable (phone appointment));
   escapeCSV (nullable (email appointment));
   escapeCSV (JsStr (Js.join "; " (tests appointment)));
   escapeCSV (JsStr (Js.before "T"
                               (Js.toISOString (preferred_date appointment))));
   escapeCSV (JsStr (AppointmentStatus_name (status appointment)));
   escapeCSV (JsStr (formatAddress appointment));
   escapeCSV (JsStr (formatCoordinates number_toString
                                       (lat appointment) (lng appointment)));
   escapeCSV (nullable (notes appointment));
   escapeCSV (nullable (slot_hint appointment));
   escapeCSV (JsStr (if fasting_required appointment then "Yes" else "No"));
   escapeCSV (JsStr (Js.toISOString (created_at appointment)));
   escapeCSV (JsStr (Js.toISOString (updated_at appointment)));
   escapeCSV (JsStr (match last_reminder_sent_at appointment with
                     | Some d => Js.toISOString d
                     | None => ""
                     end))].

Definition exportAppointmentsCSV (number_toString : JsNumber -> string)
    (table : list Appointment) (filter : option GetAppointmentsFilter.t)
  : string :=
  let appointments := exportAppointmentsCSV_rows table filter in
  let csvRows :=
    (Js.join "," csv_headers
     :: map (fun appointment =>
               Js.join "," (csv_row number_toString appointment))
            appointments) in
  Js.join (String Js.LF "") csvRows.

(** ** Notifications and reminders ([handlers/send_reminders.ts]) *)

Inductive Channel : Type :=
  | CustomerEmailNotification
  | CustomerWhatsAppNotification
  | AdminEmailNotification
  | AdminWhatsAppNotification
  | CustomerReminderEmail
  | CustomerReminderWhatsApp.

(** One call of a send function: the channel and the appointment's id. *)
Record Attempt : Type := {
  attempt_channel : Channel;
  attempt_appointment : Z
}.

(** The delivery behind the send functions, which the sources leave as a
    TODO: [transport ch a] is [false] when the delivery throws.  Each send
    function catches that and answers [false]; the sources' stub, which
    sends nothing, is [fun _ _ => true]. *)
Definition Transport : Type := Channel -> Appointment -> bool.

Definition stub_transport : Transport := fun _ _ => true.

(** The calls pushed on the [notifications] array, in order, and their
    results once all are awaited; each call is recorded in the outbox. *)
Definition send_all (transport : Transport) (appointment : Appointment)
    (notifications : list Channel) (outbox : list Attempt)
  : list bool * list Attempt :=
  (map (fun ch => transport ch appointment) notifications,
   (outbox
    ++ map (fun ch => {| attempt_channel := ch;
                         attempt_appointment := id appointment |})
           notifications)%list).

Definition sendAppointmentNotifications (transport : Transport)
    (appointment : Appointment) (outbox : list Attempt) : list Attempt :=
  let notifications :=
    ((if Js.truthy (email appointment)
      then [CustomerEmailNotification] else [])
     ++ (if Js.truthy (phone appointment)
         then [CustomerWhatsAppNotification] else [])
     ++ [AdminEmailNotification; AdminWhatsAppNotification])%list in
  snd (send_all transport appointment notifications outbox).

Definition sendReminderNotifications (transport : Transport)
    (appointment : Appointment) (outbox : list Attempt)
  : bool * list Attempt :=
  let notifications :=
    ((if Js.truthy (email appointment) then [CustomerReminderEmail] else [])
     ++ (if Js.truthy (phone appointment)
         then [CustomerReminderWhatsApp] else []))%list in
  match notifications with
  | [] => (false, outbox)
  | _ :: _ =>
      let '(results, outbox') :=
        send_all transport appointment notifications outbox in
      (existsb (fun result => result) results, outbox')
  end.

(** The state the handlers act on: the database and the notifications
    attempted so far. *)
Record World : Type := {
  db : Database;
  outbox : list Attempt
}.

Record ReminderStats : Type := {
  processed : Z;
  sent : Z
}.

Definition tomorrow (tz : Z) (now : Date) : Date :=
  setHours0 tz (nextDate now).

Definition dayAfterTomorrow (tz : Z) (now : Date) : Date :=
  nextDate (tomorrow tz now).

(** The [where] clause of the reminder query. *)
Definition reminder_condition (tz : Z) (now : Date) : Sql.Condition :=
  Sql.and_
    [Sql.gte preferred_date (tomorrow tz now);
     Sql.lte preferred_date (dayAfterTomorrow tz now);
     Sql.or_ [Sql.eq_status Received; Sql.eq_status Confirmed];
     Sql.or_ [Sql.isNull last_reminder_sent_at;
              Sql.lte_nullable last_reminder_sent_at
                               (now - 24 * 60 * 60 * 1000)]].

(** The appointments the reminder job selects. *)
Definition reminder_candidates (tz : Z) (now : Date)
    (table : list Appointment) : list Appointment :=
  Sql.select_where (reminder_condition tz now) table.

(** The [set] of the reminder job's update. *)
Definition reminded (now : Date) : UpdateValues :=
  {| set_status := None;
     set_notes := None;
     set_updated_at := Some now;
     set_last_reminder_sent_at := Some (Some now) |}.

(** One turn of the loop over the selected appointments. *)
Definition reminder_step (transport : Transport) (now : Date)
    (acc : ReminderStats * World) (appointment : Appointment)
  : ReminderStats * World :=
  let '(stats, w) := acc in
  let processed' := processed stats + 1 in
  let '(reminderSent, outbox') :=
    sendReminderNotifications transport appointment (outbox w) in
  if reminderSent then
    ({| processed := processed'; sent := sent stats + 1 |},
     {| db :=
          {| appointmentsTable :=
               fst (Sql.update_where (Sql.eq_id (id appointment))
                                     (reminded now)
                                     (appointmentsTable (db w)));
             appointments_id_seq := appointments_id_seq (db w) |};
        outbox := outbox' |})
  else
    ({| processed := processed'; sent := sent stats |},
     {| db := db w; outbox := outbox' |}).

Definition sendNextDayReminders (transport : Transport) (tz : Z) (now : Date)
    (w : World) : ReminderStats * World :=
  let appointments := reminder_candidates tz now (appointmentsTable (db w)) in
  fold_left (reminder_step transport now) appointments
            ({| processed := 0; sent := 0 |}, w).

(** ** The router ([index.ts]) *)

Module Router.

(** The outcome of a procedure with an input schema: the handler's answer,
    the rejection of the input with the schema's issues, or the error the
    router answers when the handler throws. *)
Inductive Response (A : Type) : Type :=
  | Ok (a : A)
  | BadRequest (issues : list Issue)
  | InternalServerError.

Arguments Ok {A} a.
Arguments BadRequest {A} issues.
Arguments InternalServerError {A}.

Definition createAppointment (is_email : string -> bool) (real : RealColumn)
    (tz : Z) (now : Date) (w : World) (input : CreateAppointmentInput.t)
  : Response AppointmentCreatedResponse.t * World :=
  match createAppointmentInputSchema is_email tz now input with
  | [] =>
      match createAppointment real now (db w) input with
      | Some (appointment, db') =>
          (Ok {| AppointmentCreatedResponse.success := true;
                 AppointmentCreatedResponse.message :=
                   "Booking received — you will be contacted for further info.";
                 AppointmentCreatedResponse.appointment := appointment |},
           {| db := db'; outbox := outbox w |})
      | None => (InternalServerError, w)
      end
  | issues => (BadRequest issues, w)
  end.

End Router.

(** ** The detail query ([handlers/get_appointment_by_id.ts]) *)

(** The copies [new Date(d)] the handler makes of the timestamps are the
    instants they copy, so the row is returned as it is stored.  The id is
    an integer, as the column it is compared with. *)
Definition getAppointmentById (table : list Appointment) (id : Z)
  : option Appointment :=
  let result := Sql.select_where (Sql.eq_id id) table in
  match result with
  | [] => None
  | appointment :: _ => Some appointment
  end.

(** ** The other procedures of the router ([index.ts])

    Their input schemas ask for no more than the types of
    [UpdateAppointmentStatusInput.t], [GetAppointmentsFilter.t] and
    [AdminAuthInput.t], so every well-typed input reaches the handler. *)

Module AppRouter.

Record Health : Type := {
  health_status : string;
  timestamp : string
}.

Definition healthcheck (now : Date) : Health :=
  {| health_status := "ok"; timestamp := Js.toISOString now |}.

Definition authenticateAdmin (ADMIN_PASS : option string)
    (input : AdminAuthInput.t) : AdminAuthResponse :=
  authenticateAdmin ADMIN_PASS input.

Definition getAppointments (w : World)
    (input : option GetAppointmentsFilter.t) : list Appointment :=
  getAppointments (appointmentsTable (db w)) input.

Definition getAppointmentById (w : World) (id : Z) : option Appointment :=
  getAppointmentById (appointmentsTable (db w)) id.

Definition updateAppointmentStatus (now : Date) (w : World)
    (input : UpdateAppointmentStatusInput.t) : option Appointment * World :=
  let '(result, db') := updateAppointmentStatus now (db w) input in
  (result, {| db := db'; outbox := outbox w |}).

Definition exportAppointmentsCSV (number_toString : JsNumber -> string)
    (w : World) (input : option GetAppointmentsFilter.t) : string :=
  exportAppointmentsCSV number_toString (appointmentsTable (db w)) input.

Definition sendNextDayReminders (transport : Transport) (tz : Z) (now : Date)
    (w : World) : ReminderStats * World :=
  sendNextDayReminders transport tz now w.

End AppRouter.

(** One call of a procedure that writes: the intake, a status update or a
    run of the reminder job, each with its input and the clock reading of
    the call.  The other procedures leave the state as it is. *)
Inductive step (is_email : string -> bool) (real : RealColumn)
  : World -> World -> Prop :=
  | step_createAppointment (tz : Z) (now : Date) (w : World)
      (input : CreateAppointmentInput.t) :
      step is_email real w
           (snd (Router.createAppointment is_email real tz now w input))
  | step_updateAppointmentStatus (now : Date) (w : World)
      (input : UpdateAppointmentStatusInput.t) :
      step is_email real w
           (snd (AppRouter.updateAppointmentStatus now w input))
  | step_sendNextDayReminders (transport : Transport) (tz : Z) (now : Date)
      (w : World) :
      step is_email real w
           (snd (AppRouter.sendNextDayReminders transport tz now w)).

(** The states the service can be in: a database created empty, its
    sequence at 1, and any number of calls since. *)
Inductive reachable (is_email : string -> bool) (real : RealColumn)
  : World -> Prop :=
  | reachable_start :
      reachable is_email real
        {| db := {| appointmentsTable := []; appointments_id_seq := 1 |};
           outbox := [] |}
  | reachable_step (w w' : World) :
      reachable is_email real w -> step is_email real w w' ->
      reachable is_email real w'.


(** ** Vocabulary of the properties *)

(** Case analysis on every optional value the goal matches on. *)
Ltac destruct_options :=
  repeat match goal with
         | |- context [match ?o with Some _ => _ | None => _ end] => destruct o
         end.

Ltac issue_cases :=
  cbn; intros H; repeat (destruct H as [<- | H]); try contradiction;
  repeat split; discriminate.

Definition not_configured : AdminAuthResponse :=
  {| success := false; message := "Authentication system not configured" |}.

(** What a status update does to a row it applies to: it sets the status,
    refreshes [updated_at], keeps the notes when the input has none, stores
    the input's notes (null included) when it has, and keeps every other
    column. *)
Definition status_updated (now : Date) (input : UpdateAppointmentStatusInput.t)
    (old new : Appointment) : Prop :=
  status new = UpdateAppointmentStatusInput.status input
  /\ updated_at new = now
  /\ (UpdateAppointmentStatusInput.notes input = None -> notes new = notes old)
  /\ (UpdateAppointmentStatusInput.notes input = Some None -> notes new = None)
  /\ (forall text, UpdateAppointmentStatusInput.notes input = Some (Some text) ->
                   notes new = Some text)
  /\ id new = id old /\ name new = name old /\ phone new = phone old
  /\ email new = email old /\ tests new = tests old
  /\ preferred_date new = preferred_date old
  /\ created_at new = created_at old
  /\ address_house_no new = address_house_no old
  /\ address_house_name new = address_house_name old
  /\ address_street new = address_street old
  /\ address_locality new = address_locality old
  /\ address_city new = address_city old
  /\ address_state new = address_state old
  /\ address_pincode new = address_pincode old
  /\ lat new = lat old /\ lng new = lng old
  /\ last_reminder_sent_at new = last_reminder_sent_at old
  /\ slot_hint new = slot_hint old
  /\ fasting_required new = fasting_required old.

(** Phone and e-mail are both null. *)
Definition contact_is_null (input : CreateAppointmentInput.t) : Prop :=
  CreateAppointmentInput.phone input = None
  /\ CreateAppointmentInput.email input = None.

(** The preferred date is before the local midnight that began the day of
    the call. *)
Definition before_today (tz : Z) (now : Date)
    (input : CreateAppointmentInput.t) : Prop :=
  CreateAppointmentInput.preferred_date input < setHours0 tz now.

(** A coordinate is null, and so is one of street, locality and city. *)
Definition address_is_null (input : CreateAppointmentInput.t) : Prop :=
  (CreateAppointmentInput.lat input = None
   \/ CreateAppointmentInput.lng input = None)
  /\ (CreateAppointmentInput.address_street input = None
      \/ CreateAppointmentInput.address_locality input = None
      \/ CreateAppointmentInput.address_city input = None).

Definition contact_issue : Issue :=
  {| issue_path := "phone";
     issue_message := "At least one of phone or email is required" |}.

Definition date_issue : Issue :=
  {| issue_path := "preferred_date";
     issue_message := "Preferred date cannot be in the past" |}.

Definition address_issue : Issue :=
  {| issue_path := "lat";
     issue_message :=
       "Address requires either a map pin or street, locality, and city" |}.

(** The issue of a coordinate that is NaN. *)
Definition nan_issue (path : string) : Issue :=
  {| issue_path := path; issue_message := "Expected number, received nan" |}.

(** Neither coordinate is NaN. *)
Definition coordinates_are_numbers (input : CreateAppointmentInput.t)
  : Prop :=
  CreateAppointmentInput.lat input <> Some S754_nan
  /\ CreateAppointmentInput.lng input <> Some S754_nan.

(** The column takes the value: null, or a number it does not refuse. *)
Definition takes (real : RealColumn) (v : option JsNumber) : Prop :=
  forall x, v = Some x -> real x <> None.

(** The column keeps the value as it is written: null, or a number that
    is read back unchanged. *)
Definition keeps (real : RealColumn) (v : option JsNumber) : Prop :=
  forall x, v = Some x -> real x = Some x.

Definition attempt (ch : Channel) (appointment : Appointment) : Attempt :=
  {| attempt_channel := ch; attempt_appointment := id appointment |}.

(** The selection rule in the words of the specification: the preferred date
    in the window with its end excluded, the status Received or Confirmed,
    and the last reminder absent or more than 24 hours old. *)
Definition reminder_due_as_specified (tz : Z) (now : Date) (a : Appointment)
  : Prop :=
  tomorrow tz now <= preferred_date a < dayAfterTomorrow tz now
  /\ (status a = Received \/ status a = Confirmed)
  /\ (last_reminder_sent_at a = None
      \/ exists t, last_reminder_sent_at a = Some t /\ MS_PER_DAY < now - t).

(** The rule of the query, away from the end of the window: the last
    reminder may be exactly 24 hours old. *)
Definition reminder_due (tz : Z) (now : Date) (a : Appointment) : Prop :=
  tomorrow tz now <= preferred_date a < dayAfterTomorrow tz now
  /\ (status a = Received \/ status a = Confirmed)
  /\ (last_reminder_sent_at a = None
      \/ exists t, last_reminder_sent_at a = Some t /\ MS_PER_DAY <= now - t).

(** At least one applicable channel delivered the reminder. *)
Definition reminder_delivered (transport : Transport) (a : Appointment)
  : bool :=
  (Js.truthy (email a) && transport CustomerReminderEmail a)
  || (Js.truthy (phone a) && transport CustomerReminderWhatsApp a).

(** The reminder calls made for one appointment. *)
Definition reminder_attempts (a : Appointment) : list Attempt :=
  ((if Js.truthy (email a) then [attempt CustomerReminderEmail a] else [])
   ++ (if Js.truthy (phone a)
       then [attempt CustomerReminderWhatsApp a] else []))%list.

(** What the job does to a row it marks: both timestamps are set to the
    time of the run and every other column is kept. *)
Definition marked_reminded (now : Date) (old new : Appointment) : Prop :=
  last_reminder_sent_at new = Some now
  /\ updated_at new = now
  /\ new = apply_set (reminded now) old
  /\ id new = id old /\ status new = status old /\ notes new = notes old
  /\ preferred_date new = preferred_date old
  /\ created_at new = created_at old.

(** The rows after the loop has run over [l]: a row is marked when some
    appointment of [l] with its id had a reminder delivered. *)
Definition mark_rows (transport : Transport) (now : Date)
    (l : list Appointment) (table : list Appointment) : list Appointment :=
  map (fun r =>
         if existsb (fun a => (id r =? id a) && reminder_delivered transport a)
                    l
         then apply_set (reminded now) r else r)
      table.

(** The value holds a comma, a double quote or a line break. *)
Definition has_special (s : string) : Prop :=
  exists c, In c (list_ascii_of_string s)
            /\ (c = Js.comma \/ c = Js.dquote \/ c = Js.LF \/ c = Js.CR).

(** Standard CSV quoting, in the words of the specification: the value
    between two double quotes, each double quote inside it written twice. *)
Definition csv_quoted (s : string) : string :=
  string_of_list_ascii
    ([Js.dquote]
     ++ flat_map (fun c => if Ascii.eqb c Js.dquote
                           then [Js.dquote; Js.dquote] else [c])
                 (list_ascii_of_string s)
     ++ [Js.dquote])%list.

(** Reading a quoted field back: up to the closing quote, a doubled quote
    standing for one. *)
Fixpoint unquote (body : string) : option string :=
  match body with
  | EmptyString => None
  | String c rest =>
      if Ascii.eqb c Js.dquote then
        match rest with
        | EmptyString => Some EmptyString
        | String d rest' =>
            if Ascii.eqb d Js.dquote
            then option_map (String Js.dquote) (unquote rest')
            else None
        end
      else option_map (String c) (unquote rest)
  end.

(** Reading a CSV field back: a field that opens with a quote is unquoted,
    any other field is taken as it stands. *)
Definition csv_read_field (field : string) : option string :=
  match field with
  | EmptyString => Some EmptyString
  | String c body =>
      if Ascii.eqb c Js.dquote then unquote body else Some field
  end.

Definition header_line : string :=
  "ID,Name,Phone,Email,Tests,Preferred Date,Status,Address,Coordinates,Notes,Slot Hint,Fasting Required,Created At,Updated At,Last Reminder Sent".

(** A row meets a filter of the list query: it has the filter's status, its
    preferred date is within the bounds, both included, and one of name,
    phone and e-mail matches the trimmed search term, if the term is not
    blank; a part the filter leaves out constrains nothing. *)
Definition matches_filter (filter : option GetAppointmentsFilter.t)
    (a : Appointment) : Prop :=
  forall f, filter = Some f ->
    (forall s, GetAppointmentsFilter.status f = Some s -> status a = s)
    /\ (forall d, GetAppointmentsFilter.startDate f = Some d ->
                  d <= preferred_date a)
    /\ (forall d, GetAppointmentsFilter.endDate f = Some d ->
                  preferred_date a <= d)
    /\ (forall s, GetAppointmentsFilter.search f = Some s ->
                  Js.trim s <> "" ->
                  search_condition (Js.trim s) a = true).

(** The filters on which the two handlers build the same conditions: those
    whose search term, if any, has no white space at either end. *)
Definition search_is_trimmed (filter : option GetAppointmentsFilter.t)
  : Prop :=
  forall f s, filter = Some f -> GetAppointmentsFilter.search f = Some s ->
              Js.trim s = s.

(** What the intake schema asks of an input. *)
Definition valid_input (is_email : string -> bool) (tz : Z) (now : Date)
    (input : CreateAppointmentInput.t) : Prop :=
  CreateAppointmentInput.name input <> ""
  /\ (forall e, CreateAppointmentInput.email input = Some e ->
                is_email e = true)
  /\ CreateAppointmentInput.tests input <> []
  /\ (CreateAppointmentInput.phone input <> None
      \/ CreateAppointmentInput.email input <> None)
  /\ setHours0 tz now <= CreateAppointmentInput.preferred_date input
  /\ ((CreateAppointmentInput.lat input <> None
       /\ CreateAppointmentInput.lng input <> None)
      \/ (CreateAppointmentInput.address_street input <> None
          /\ CreateAppointmentInput.address_locality input <> None
          /\ CreateAppointmentInput.address_city input <> None))
  /\ coordinates_are_numbers input.

(** What intake has checked of a stored row, in the columns no later call
    changes. *)
Definition row_valid (is_email : string -> bool) (r : Appointment) : Prop :=
  name r <> ""
  /\ (forall e, email r = Some e -> is_email e = true)
  /\ tests r <> []
  /\ (phone r <> None \/ email r <> None)
  /\ ((lat r <> None /\ lng r <> None)
      \/ (address_street r <> None /\ address_locality r <> None
          /\ address_city r <> None))
  /\ fasting_required r
     = existsb (fun test => Array_includes fastingTests test) (tests r).

(** The ids of the table are distinct and were all drawn from the sequence. *)
Definition keys_valid (d : Database) : Prop :=
  1 <= appointments_id_seq d
  /\ NoDup (map id (appointmentsTable d))
  /\ Forall (fun r => 1 <= id r < appointments_id_seq d) (appointmentsTable d).

(** The columns of a row that are written at intake and never after. *)
Definition intake_columns (r : Appointment)
  : Z * string * option string * option string * list string * Date
    * list (option string) * option JsNumber * option JsNumber * Date
    * option string * bool :=
  (id r, name r, phone r, email r, tests r, preferred_date r,
   [address_house_no r; address_house_name r; address_street r;
    address_locality r; address_city r; address_state r; address_pincode r],
   lat r, lng r, created_at r, slot_hint r, fasting_required r).

(** A reminder call for the appointment of the given id is in the outbox. *)
Definition reminder_attempted (box : list Attempt) (key : Z) : Prop :=
  exists ch, In {| attempt_channel := ch; attempt_appointment := key |} box
             /\ (ch = CustomerReminderEmail \/ ch = CustomerReminderWhatsApp).

(** The intake input a stored row was made from, its notes apart. *)
Definition intake_of (r : Appointment) (notes0 : option string)
  : CreateAppointmentInput.t :=
  {| CreateAppointmentInput.name := name r;
     CreateAppointmentInput.phone := phone r;
     CreateAppointmentInput.email := email r;
     CreateAppointmentInput.tests := tests r;
     CreateAppointmentInput.preferred_date := preferred_date r;
     CreateAppointmentInput.notes := notes0;
     CreateAppointmentInput.address_house_no := address_house_no r;
     CreateAppointmentInput.address_house_name := address_house_name r;
     CreateAppointmentInput.address_street := address_street r;
     CreateAppointmentInput.address_locality := address_locality r;
     CreateAppointmentInput.address_city := address_city r;
     CreateAppointmentInput.address_state := address_state r;
     CreateAppointmentInput.address_pincode := address_pincode r;
     CreateAppointmentInput.lat := lat r;
     CreateAppointmentInput.lng := lng r;
     CreateAppointmentInput.slot_hint := slot_hint r |}.

(** The input with other coordinates. *)
Definition with_coordinates (input : CreateAppointmentInput.t)
    (lat' lng' : option JsNumber) : CreateAppointmentInput.t :=
  {| CreateAppointmentInput.name := CreateAppointmentInput.name input;
     CreateAppointmentInput.phone := CreateAppointmentInput.phone input;
     CreateAppointmentInput.email := CreateAppointmentInput.email input;
     CreateAppointmentInput.tests := CreateAppointmentInput.tests input;
     CreateAppointmentInput.preferred_date :=
       CreateAppointmentInput.preferred_date input;
     CreateAppointmentInput.notes := CreateAppointmentInput.notes input;
     CreateAppointmentInput.address_house_no :=
       CreateAppointmentInput.address_house_no input;
     CreateAppointmentInput.address_house_name :=
       CreateAppointmentInput.address_house_name input;
     CreateAppointmentInput.address_street :=
       CreateAppointmentInput.address_street input;
     CreateAppointmentInput.address_locality :=
       CreateAppointmentInput.address_locality input;
     CreateAppointmentInput.address_city :=
       CreateAppointmentInput.address_city input;
     CreateAppointmentInput.address_state :=
       CreateAppointmentInput.address_state input;
     CreateAppointmentInput.address_pincode :=
       CreateAppointmentInput.address_pincode input;
     CreateAppointmentInput.lat := lat';
     CreateAppointmentInput.lng := lng';
     CreateAppointmentInput.slot_hint :=
       CreateAppointmentInput.slot_hint input |}.

(** The second of two status updates of one row, with the notes it leaves:
    its own if it has any, else those of the first. *)
Definition update_after (first second : UpdateAppointmentStatusInput.t)
  : UpdateAppointmentStatusInput.t :=
  {| UpdateAppointmentStatusInput.id := UpdateAppointmentStatusInput.id second;
     UpdateAppointmentStatusInput.status :=
       UpdateAppointmentStatusInput.status second;
     UpdateAppointmentStatusInput.notes :=
       match UpdateAppointmentStatusInput.notes second with
       | Some n => Some n
       | None => UpdateAppointmentStatusInput.notes first
       end |}.

(** The [set] of two updates in a row: a column takes the value of the
    second if the second sets it, else that of the first. *)
Definition merge_set (v1 v2 : UpdateValues) : UpdateValues :=
  {| set_status :=
       match set_status v2 with Some x => Some x | None => set_status v1 end;
     set_notes :=
       match set_notes v2 with Some x => Some x | None => set_notes v1 end;
     set_updated_at :=
       match set_updated_at v2 with
       | Some x => Some x
       | None => set_updated_at v1
       end;
     set_last_reminder_sent_at :=
       match set_last_reminder_sent_at v2 with
       | Some x => Some x
       | None => set_last_reminder_sent_at v1
       end |}.

(** Filter [g] asks at least what filter [f] asks. *)
Definition narrows (g f : GetAppointmentsFilter.t) : Prop :=
  (forall s, GetAppointmentsFilter.status f = Some s ->
             GetAppointmentsFilter.status g = Some s)
  /\ (forall d, GetAppointmentsFilter.startDate f = Some d ->
                GetAppointmentsFilter.startDate g = Some d)
  /\ (forall d, GetAppointmentsFilter.endDate f = Some d ->
                GetAppointmentsFilter.endDate g = Some d)
  /\ (forall s, GetAppointmentsFilter.search f = Some s ->
                GetAppointmentsFilter.search g = Some s).

(** A filter on status and dates alone. *)
Definition status_and_dates (s : option AppointmentStatus)
    (from to : option Date) : GetAppointmentsFilter.t :=
  {| GetAppointmentsFilter.status := s;
     GetAppointmentsFilter.startDate := from;
     GetAppointmentsFilter.endDate := to;
     GetAppointmentsFilter.search := None |}.

(** The row has the status, if one is asked, and its preferred date is
    within the bounds that are given, both included. *)
Definition in_status_and_dates (s : option AppointmentStatus)
    (from to : option Date) (a : Appointment) : bool :=
  match s with Some x => AppointmentStatus_eqb (status a) x | None => true end
  && match from with Some d => d <=? preferred_date a | None => true end
  && match to with Some d => preferred_date a <=? d | None => true end.

(** The characters a [LIKE] pattern reads as more than themselves. *)
Definition wildcard (c : ascii) : bool :=
  Ascii.eqb c "%" || Ascii.eqb c "_" || Ascii.eqb c "092".

(** A search term with no such character. *)
Fixpoint plain_term (t : string) : bool :=
  match t with
  | EmptyString => true
  | String c t' => negb (wildcard c) && plain_term t'
  end.

(** [t] occurs in [s] as a run of consecutive characters. *)
Definition occurs (t s : string) : Prop :=
  exists before after, s = (before ++ t ++ after)%string.

(** The same, letter case apart. *)
Definition occurs_ignoring_case (t s : string) : Prop :=
  occurs (Sql.toLower t) (Sql.toLower s).

(** The term made of [n] times the character [c]. *)
Fixpoint run (c : ascii) (n : nat) : string :=
  match n with
  | O => EmptyString
  | S n' => String c (run c n')
  end.

(** A reader of CSV text is between the quotes of a field, just after a
    quote met inside them, or outside quotes. *)
Inductive ReaderState : Type :=
  | Unquoted
  | InQuoted
  | AfterQuote.

(** A reader of CSV text.  Outside quotes a comma ends the field and a line
    feed ends the record; a quote opens a quoted field, and only at the
    start of a field; inside quotes every character belongs to the field,
    but that two quotes stand for one and a single quote closes the field.
    [field] is what has been read of the current field and [record] the
    fields read of the current record.  Text that ends inside quotes, or
    goes on after a closing quote, is not CSV. *)
Fixpoint csv_read (st : ReaderState) (field : string) (record : list string)
    (text : string) : option (list (list string)) :=
  match text with
  | EmptyString =>
      match st with
      | InQuoted => None
      | _ => Some [(record ++ [field])%list]
      end
  | String c rest =>
      match st with
      | InQuoted =>
          if Ascii.eqb c Js.dquote then csv_read AfterQuote field record rest
          else csv_read InQuoted (field ++ String c "") record rest
      | AfterQuote =>
          if Ascii.eqb c Js.dquote
          then csv_read InQuoted (field ++ String c "") record rest
          else if Ascii.eqb c Js.comma
          then csv_read Unquoted "" (record ++ [field])%list rest
          else if Ascii.eqb c Js.LF
          then option_map (cons (record ++ [field])%list)
                          (csv_read Unquoted "" [] rest)
          else None
      | Unquoted =>
          if Ascii.eqb c Js.dquote
          then match field with
               | EmptyString => csv_read InQuoted "" record rest
               | String _ _ => None
               end
          else if Ascii.eqb c Js.comma
          then csv_read Unquoted "" (record ++ [field])%list rest
          else if Ascii.eqb c Js.LF
          then option_map (cons (record ++ [field])%list)
                          (csv_read Unquoted "" [] rest)
          else csv_read Unquoted (field ++ String c "") record rest
      end
  end.

(** The records of a CSV text, each the list of its fields. *)
Definition csv_parse (text : string) : option (list (list string)) :=
  csv_read Unquoted "" [] text.

(** The fifteen values of a data row before they are escaped, null as the
    empty string. *)
Definition csv_values (number_toString : JsNumber -> string)
    (appointment : Appointment) : list string :=
  let text (v : option string) :=
    match v with Some s => s | None => "" end in
  [Js.String_of_int (id appointment);
   name appointment;
   text (phone appointment);
   text (email appointment);
   Js.join "; " (tests appointment);
   Js.before "T" (Js.toISOString (preferred_date appointment));
   AppointmentStatus_name (status appointment);
   formatAddress appointment;
   formatCoordinates number_toString (lat appointment) (lng appointment);
   text (notes appointment);
   text (slot_hint appointment);
   if fasting_required appointment then "Yes" else "No";
   Js.toISOString (created_at appointment);
   Js.toISOString (updated_at appointment);
   match last_reminder_sent_at appointment with
   | Some d => Js.toISOString d
   | None => ""
   end].

(** A value and the field that renders it: the value in quotes, as above,
    if it holds a comma, a double quote or a line break, and as it stands
    if not, so that reading the field back yields the value. *)
Definition csv_field (value field : string) : Prop :=
  (has_special value -> field = csv_quoted value)
  /\ (~ has_special value -> field = value)
  /\ csv_read_field field = Some value.

(** The columns of a row that can be null, each with its position: phone,
    e-mail, notes, slot hint and the time of the last reminder. *)
Definition nullable_columns (appointment : Appointment)
  : list (nat * option string) :=
  [(2%nat, phone appointment);
   (3%nat, email appointment);
   (9%nat, notes appointment);
   (10%nat, slot_hint appointment);
   (14%nat, option_map Js.toISOString (last_reminder_sent_at appointment))].

(** The text after a field: nothing, or a comma or a line feed and more. *)
Definition delimited (tail : string) : Prop :=
  match tail with
  | EmptyString => True
  | String c _ => c = Js.comma \/ c = Js.LF
  end.

(** The seven parts of the address, in the order of the export. *)
Definition address_parts (a : Appointment) : list (option string) :=
  [address_house_no a; address_house_name a; address_street a;
   address_locality a; address_city a; address_state a; address_pincode a].

(** ** Sample data

    Concrete inputs on which the properties below are exercised. *)

(** The offset of Asia/Kolkata, five and a half hours. *)
Definition IST : Z := 19800000.

(** 2025-11-02 18:00 in that zone (12:30 UTC). *)
Definition sample_now : Date := 1762086600000.

(** 2025-11-03 10:00 in that zone: a time of the day after [sample_now]. *)
Definition sample_due : Date := 1762144200000.

(** A stand-in for the validation library's e-mail check. *)
Definition sample_is_email (s : string) : bool := Js.includes s "@".

(** The conversion of a number to a string on zeros, infinities, NaN and
    integral values; the samples hold no other number. *)
Definition integral_toString (x : JsNumber) : string :=
  match x with
  | S754_zero _ => "0"
  | S754_infinity false => "Infinity"
  | S754_infinity true => "-Infinity"
  | S754_nan => "NaN"
  | S754_finite sign m e =>
      if 0 <=? e
      then ((if sign then "-" else "")
            ++ Js.String_of_int (Z.pos m * 2 ^ e))%string
      else ""
  end.

(** A stand-in for the [real] columns on coordinates of few digits, as
    those of the test suites are, which are read back as written: it keeps
    every number within the range of single precision and refuses a finite
    number beyond it. *)
Definition sample_real : RealColumn :=
  fun x =>
    match x with
    | S754_finite _ m e =>
        if Z.log2 (Z.pos m) + e <? 128 then Some x else None
    | _ => Some x
    end.

Definition sample_appointment (i : Z) (who : string) (created due : Date)
    (st : AppointmentStatus) (last : option Date) : Appointment :=
  {| id := i;
     name := who;
     phone := Some "+919876543210";
     email := Some "asha@example.com";
     tests := ["CBC"; "X-Ray"];
     preferred_date := due;
     notes := Some "Initial notes";
     address_house_no := Some "123";
     address_house_name := None;
     address_street := Some "Main Street";
     address_locality := Some "Central Area";
     address_city := Some "Mumbai";
     address_state := Some "Maharashtra";
     address_pincode := Some "400001";
     lat := None;
     lng := None;
     status := st;
     created_at := created;
     updated_at := created;
     last_reminder_sent_at := last;
     slot_hint := Some "10:00 AM";
     fasting_required := true |}.

Definition sample_input (due : Date) : CreateAppointmentInput.t :=
  {| CreateAppointmentInput.name := "Asha Rao";
     CreateAppointmentInput.phone := Some "+919876543210";
     CreateAppointmentInput.email := Some "asha@example.com";
     CreateAppointmentInput.tests := ["CBC"; "X-Ray"];
     CreateAppointmentInput.preferred_date := due;
     CreateAppointmentInput.notes := None;
     CreateAppointmentInput.address_house_no := Some "123";
     CreateAppointmentInput.address_house_name := None;
     CreateAppointmentInput.address_street := Some "Main Street";
     CreateAppointmentInput.address_locality := Some "Central Area";
     CreateAppointmentInput.address_city := Some "Mumbai";
     CreateAppointmentInput.address_state := None;
     CreateAppointmentInput.address_pincode := None;
     CreateAppointmentInput.lat := None;
     CreateAppointmentInput.lng := None;
     CreateAppointmentInput.slot_hint := None |}.

Definition empty_database : Database :=
  {| appointmentsTable := []; appointments_id_seq := 1 |}.

Definition empty_world : World := {| db := empty_database; outbox := [] |}.

Definition missing_update : UpdateAppointmentStatusInput.t :=
  {| UpdateAppointmentStatusInput.id := 99999;
     UpdateAppointmentStatusInput.status := Contacted;
     UpdateAppointmentStatusInput.notes := None |}.

Definition cancel_first : UpdateAppointmentStatusInput.t :=
  {| UpdateAppointmentStatusInput.id := 1;
     UpdateAppointmentStatusInput.status := Cancelled;
     UpdateAppointmentStatusInput.notes := None |}.

Definition one_row_database : Database :=
  {| appointmentsTable :=
       [sample_appointment 1 "Asha Rao" 1762000200000 sample_due Received None];
     appointments_id_seq := 2 |}.

(** An input whose preferred date is some days gone. *)
Definition stale_input : CreateAppointmentInput.t := sample_input 1762000200000.

(** An input whose phone and whose street, locality and city are empty
    strings, with no e-mail and no coordinates. *)
Definition blank_input : CreateAppointmentInput.t :=
  {| CreateAppointmentInput.name := "Hari Menon";
     CreateAppointmentInput.phone := Some "";
     CreateAppointmentInput.email := None;
     CreateAppointmentInput.tests := ["KFT"];
     CreateAppointmentInput.preferred_date := sample_due;
     CreateAppointmentInput.notes := None;
     CreateAppointmentInput.address_house_no := None;
     CreateAppointmentInput.address_house_name := None;
     CreateAppointmentInput.address_street := Some "";
     CreateAppointmentInput.address_locality := Some "";
     CreateAppointmentInput.address_city := Some "";
     CreateAppointmentInput.address_state := None;
     CreateAppointmentInput.address_pincode := None;
     CreateAppointmentInput.lat := None;
     CreateAppointmentInput.lng := None;
     CreateAppointmentInput.slot_hint := None |}.

(** 2025-11-02 09:00 in the zone of [IST]: nine hours before [sample_now],
    on the same local day. *)
Definition this_morning : Date := 1762054200000.

Definition due_tomorrow : Appointment :=
  sample_appointment 1 "Asha Rao" 1762000200000 sample_due Received None.

Definition due_in_two_days : Appointment :=
  sample_appointment 2 "Binod Das" 1762000200000 (sample_due + MS_PER_DAY)
                     Received None.

Definition completed_tomorrow : Appointment :=
  sample_appointment 3 "Chitra Nair" 1762000200000 sample_due Completed None.

(** Reminded exactly 24 hours before [sample_now]. *)
Definition reminded_a_day_ago : Appointment :=
  sample_appointment 4 "Deepa Iyer" 1762000200000 sample_due Confirmed
                     (Some (sample_now - MS_PER_DAY)).

(** Dated at the first instant of the day after tomorrow. *)
Definition due_at_window_end : Appointment :=
  sample_appointment 5 "Esha Rao" 1762000200000
                     (dayAfterTomorrow IST sample_now) Received None.

(** A transport on which every delivery for appointment 1 throws. *)
Definition flaky_transport : Transport :=
  fun _ a => negb (id a =? 1).

(** Due tomorrow, with no way to reach the customer. *)
Definition unreachable_tomorrow : Appointment :=
  {| id := 6;
     name := "Farid Khan";
     phone := None;
     email := Some "";
     tests := ["X-Ray"];
     preferred_date := sample_due;
     notes := None;
     address_house_no := None;
     address_house_name := None;
     address_street := None;
     address_locality := None;
     address_city := None;
     address_state := None;
     address_pincode := None;
     lat := Some (S754_finite false 19 0);
     lng := Some (S754_finite false 73 0);
     status := Received;
     created_at := 1762000200000;
     updated_at := 1762000200000;
     last_reminder_sent_at := None;
     slot_hint := None;
     fasting_required := false |}.

Definition reminder_world : World :=
  {| db := {| appointmentsTable :=
                [due_tomorrow; due_in_two_days; completed_tomorrow;
                 reminded_a_day_ago; unreachable_tomorrow];
              appointments_id_seq := 7 |};
     outbox := [] |}.

(** The name of the specification's example, John JD Doe with JD in double
    quotes. *)
Definition quoted_name : string :=
  "John " ++ String Js.dquote ("JD" ++ String Js.dquote " Doe").

Definition cancelled_only : GetAppointmentsFilter.t :=
  {| GetAppointmentsFilter.status := Some Cancelled;
     GetAppointmentsFilter.startDate := None;
     GetAppointmentsFilter.endDate := None;
     GetAppointmentsFilter.search := None |}.

(** Two bookings made in the same millisecond. *)
Definition twin_one : Appointment :=
  sample_appointment 1 "Asha Rao" 1762000200000 sample_due Received None.

Definition twin_two : Appointment :=
  sample_appointment 2 "Binod Das" 1762000200000 sample_due Received None.

Definition first_booking : Appointment :=
  sample_appointment 1 "Asha Rao" 1762000200000 sample_due Received None.

Definition second_booking : Appointment :=
  sample_appointment 2 "Binod Das" 1762000260000 sample_due Confirmed None.

Definition bookings : list Appointment := [first_booking; second_booking].

(** A booking whose name holds a comma. *)
Definition comma_booking : Appointment :=
  sample_appointment 8 "Rao, Asha" 1762000200000 sample_due Received None.

(** A search of two blanks. *)
Definition blank_search : GetAppointmentsFilter.t :=
  {| GetAppointmentsFilter.status := None;
     GetAppointmentsFilter.startDate := None;
     GetAppointmentsFilter.endDate := None;
     GetAppointmentsFilter.search := Some "  " |}.

(** A search term with a blank on either side. *)
Definition padded_search : GetAppointmentsFilter.t :=
  {| GetAppointmentsFilter.status := None;
     GetAppointmentsFilter.startDate := None;
     GetAppointmentsFilter.endDate := None;
     GetAppointmentsFilter.search := Some " rao " |}.

(** A booking none of whose fields needs quoting. *)
Definition plain_booking : Appointment :=
  {| id := 7;
     name := "Gita Sen";
     phone := None;
     email := Some "gita@example.com";
     tests := ["CBC"; "KFT"];
     preferred_date := sample_due;
     notes := None;
     address_house_no := None;
     address_house_name := None;
     address_street := None;
     address_locality := None;
     address_city := Some "Mumbai";
     address_state := None;
     address_pincode := None;
     lat := None;
     lng := None;
     status := Received;
     created_at := 1762000200000;
     updated_at := 1762000200000;
     last_reminder_sent_at := None;
     slot_hint := None;
     fasting_required := true |}.

(** An input located by a map pin alone: the doubles of 19.0760 and
    72.8777. *)
Definition pinned_input : CreateAppointmentInput.t :=
  {| CreateAppointmentInput.name := "Gita Sen";
     CreateAppointmentInput.phone := None;
     CreateAppointmentInput.email := Some "gita@example.com";
     CreateAppointmentInput.tests := ["CBC"];
     CreateAppointmentInput.preferred_date := sample_due;
     CreateAppointmentInput.notes := Some "Ring the bell twice";
     CreateAppointmentInput.address_house_no := None;
     CreateAppointmentInput.address_house_name := None;
     CreateAppointmentInput.address_street := None;
     CreateAppointmentInput.address_locality := None;
     CreateAppointmentInput.address_city := None;
     CreateAppointmentInput.address_state := None;
     CreateAppointmentInput.address_pincode := None;
     CreateAppointmentInput.lat :=
       Some (S754_finite false 2684708327866237 (-47));
     CreateAppointmentInput.lng :=
       Some (S754_finite false 80129878555571 (-40));
     CreateAppointmentInput.slot_hint := Some "Morning" |}.



(** The state after one accepted intake on the empty database. *)
Definition first_intake_world : World :=
  snd (Router.createAppointment sample_is_email sample_real IST sample_now
                                empty_world (sample_input sample_due)).

(** The state after a run of the reminder job that follows it. *)
Definition first_reminder_world : World :=
  snd (AppRouter.sendNextDayReminders stub_transport IST sample_now
                                      first_intake_world).

(** A first update with notes and a second one without. *)
Definition confirm_with_notes : UpdateAppointmentStatusInput.t :=
  {| UpdateAppointmentStatusInput.id := 1;
     UpdateAppointmentStatusInput.status := Confirmed;
     UpdateAppointmentStatusInput.notes := Some (Some "Call after 9") |}.

Definition complete_first : UpdateAppointmentStatusInput.t :=
  {| UpdateAppointmentStatusInput.id := 1;
     UpdateAppointmentStatusInput.status := Completed;
     UpdateAppointmentStatusInput.notes := None |}.

(** A valid input whose only contact is a phone that is the empty string. *)
Definition empty_phone_input : CreateAppointmentInput.t :=
  {| CreateAppointmentInput.name := "Hari Menon";
     CreateAppointmentInput.phone := Some "";
     CreateAppointmentInput.email := None;
     CreateAppointmentInput.tests := ["KFT"];
     CreateAppointmentInput.preferred_date := sample_due;
     CreateAppointmentInput.notes := None;
     CreateAppointmentInput.address_house_no := None;
     CreateAppointmentInput.address_house_name := None;
     CreateAppointmentInput.address_street := None;
     CreateAppointmentInput.address_locality := None;
     CreateAppointmentInput.address_city := None;
     CreateAppointmentInput.address_state := None;
     CreateAppointmentInput.address_pincode := None;
     CreateAppointmentInput.lat := Some (S754_finite false 19 0);
     CreateAppointmentInput.lng := Some (S754_finite false 73 0);
     CreateAppointmentInput.slot_hint := None |}.

(** A filter on status with a search term that needs no trimming. *)
Definition received_rao : GetAppointmentsFilter.t :=
  {| GetAppointmentsFilter.status := Some Received;
     GetAppointmentsFilter.startDate := None;
     GetAppointmentsFilter.endDate := None;
     GetAppointmentsFilter.search := Some "rao" |}.

(** * Properties *)

(** ** The model on the cases of the test suites *)

Example toISOString_epoch : Js.toISOString 0 = "1970-01-01T00:00:00.000Z".
Proof. reflexivity. Qed.

Example toISOString_leap_day :
  Js.toISOString 1709164800123 = "2024-02-29T00:00:00.123Z".
Proof. vm_compute. reflexivity. Qed.

Example toISOString_before_epoch :
  Js.toISOString (-1) = "1969-12-31T23:59:59.999Z".
Proof. vm_compute. reflexivity. Qed.

Example trim_both_ends : Js.trim "  Alice Smith   " = "Alice Smith".
Proof. reflexivity. Qed.

Example search_ignores_case : search_condition "GITA" plain_booking = true.
Proof. reflexivity. Qed.

Example search_by_email : search_condition "example.com" plain_booking = true.
Proof. reflexivity. Qed.

Example search_skips_null_phone : search_condition "2222" plain_booking = false.
Proof. reflexivity. Qed.

Example search_underscore_is_a_wildcard :
  search_condition "g_ta" plain_booking = true.
Proof. reflexivity. Qed.

Example authenticate_correct_password :
  authenticateAdmin (Some "test_admin_password")
                    {| AdminAuthInput.password := "test_admin_password" |}
  = {| success := true; message := "Authentication successful" |}.
Proof. reflexivity. Qed.

Example authenticate_is_case_sensitive :
  authenticateAdmin (Some "CaseSensitivePassword")
                    {| AdminAuthInput.password := "casesensitivepassword" |}
  = {| success := false; message := "Invalid password" |}.
Proof. reflexivity. Qed.

Example export_plain_booking :
  exportAppointmentsCSV integral_toString [plain_booking] None
  = Js.join (String Js.LF "")
      [header_line;
       "7,Gita Sen,,gita@example.com,CBC; KFT,2025-11-03,Received,Mumbai,,,,Yes,2025-11-01T12:30:00.000Z,2025-11-01T12:30:00.000Z,"].
Proof. vm_compute. reflexivity. Qed.

Example reminders_not_repeated_the_same_day :
  let first_run :=
    sendNextDayReminders stub_transport IST sample_now reminder_world in
  fst first_run = {| processed := 3; sent := 2 |}
  /\ fst (sendNextDayReminders stub_transport IST (sample_now + 60000)
                               (snd first_run))
     = {| processed := 1; sent := 0 |}.
Proof. vm_compute. split; reflexivity. Qed.

(** ** Administrator authentication *)

(** C10. With [ADMIN_PASS] unset or empty, every password is answered with
    failure and the message that authentication is not configured; with a
    non-empty secret, the answer is a success exactly when the password
    equals the secret, character for character. *)
Theorem authenticateAdmin_secret :
  forall (input : AdminAuthInput.t),
    authenticateAdmin None input = not_configured
    /\ authenticateAdmin (Some "") input = not_configured
    /\ forall (c : ascii) (rest : string),
         success (authenticateAdmin (Some (String c rest)) input) = true
         <-> AdminAuthInput.password input = String c rest.
Proof.
  intros input. repeat split.
  - cbn. destruct (String.eqb_spec (AdminAuthInput.password input)
                                   (String c rest)); congruence.
  - intros H. cbn. rewrite H. apply String.eqb_refl.
Qed.

(** ** The fasting flag *)

Lemma Array_includes_In (arr : list string) (x : string) :
  Array_includes arr x = true <-> In x arr.
Proof.
  unfold Array_includes. rewrite existsb_exists. split.
  - intros (y & Hy & E). apply String.eqb_eq in E. now subst.
  - intros H. exists x. split; [assumption | apply String.eqb_refl].
Qed.

Lemma real_value_takes (real : RealColumn) (v : option JsNumber) :
  real_value real v <> None <-> takes real v.
Proof.
  unfold takes. destruct v as [x |]; cbn.
  - split.
    + intros H x' E. injection E as <-.
      destruct (real x); [discriminate | elim H; reflexivity].
    + intros H. specialize (H x eq_refl).
      destruct (real x); [discriminate | elim H; reflexivity].
  - split; discriminate.
Qed.

Lemma createAppointment_Some (real : RealColumn) (now : Date)
    (db : Database) (input : CreateAppointmentInput.t)
    (appointment : Appointment) (db' : Database) :
  createAppointment real now db input = Some (appointment, db') ->
  exists lat' lng',
    real_value real (CreateAppointmentInput.lat input) = Some lat'
    /\ real_value real (CreateAppointmentInput.lng input) = Some lng'
    /\ (appointment, db')
       = insert_returning now db input
           (existsb (fun test => Array_includes fastingTests test)
                    (CreateAppointmentInput.tests input))
           lat' lng'.
Proof.
  unfold createAppointment.
  destruct (real_value real (CreateAppointmentInput.lat input)) as [lat' |];
    [| discriminate].
  destruct (real_value real (CreateAppointmentInput.lng input)) as [lng' |];
    [| discriminate].
  intros E. exists lat', lng'. repeat split. congruence.
Qed.

(** The insert answers a row when the columns take both coordinates, and
    fails otherwise. *)
Lemma createAppointment_takes (real : RealColumn) (now : Date)
    (db : Database) (input : CreateAppointmentInput.t) :
  createAppointment real now db input <> None
  <-> takes real (CreateAppointmentInput.lat input)
      /\ takes real (CreateAppointmentInput.lng input).
Proof.
  rewrite <- !real_value_takes. unfold createAppointment.
  destruct (real_value real (CreateAppointmentInput.lat input));
    destruct (real_value real (CreateAppointmentInput.lng input));
    intuition congruence.
Qed.

(** C9. The handler answers a row unless a coordinate is refused by its
    column, and the row it stores (and returns) has [fasting_required] set
    exactly when one of the requested tests is CBC, KFT or Lipid
    Profile. *)
Theorem createAppointment_fasting_required :
  forall (real : RealColumn) (now : Date) (db : Database)
         (input : CreateAppointmentInput.t),
    (createAppointment real now db input <> None
     <-> takes real (CreateAppointmentInput.lat input)
         /\ takes real (CreateAppointmentInput.lng input))
    /\ forall (appointment : Appointment) (db' : Database),
         createAppointment real now db input = Some (appointment, db') ->
         appointmentsTable db' = (appointmentsTable db ++ [appointment])%list
         /\ (fasting_required appointment = true
             <-> exists test : string,
                   In test (CreateAppointmentInput.tests input)
                   /\ (test = "CBC" \/ test = "KFT"
                       \/ test = "Lipid Profile")).
Proof.
  intros real now db input. split; [apply createAppointment_takes |].
  intros appointment db' E.
  apply createAppointment_Some in E. destruct E as (lat' & lng' & _ & _ & E).
  apply (f_equal fst) in E as Ea. apply (f_equal snd) in E as Ed.
  cbn [fst snd] in Ea, Ed. subst appointment db'. split; [reflexivity |].
  cbn [insert_returning fst fasting_required]. rewrite existsb_exists. split.
  - intros (test & Hin & Hf). exists test. split; [assumption |].
    apply Array_includes_In in Hf. cbn in Hf. intuition.
  - intros (test & Hin & Hf). exists test. split; [assumption |].
    apply Array_includes_In. cbn. intuition.
Qed.

(** On the sample input, which asks for CBC, the flag is set. *)
Lemma createAppointment_fasting_required_witness :
  exists appointment db',
    createAppointment sample_real sample_now empty_database
                      (sample_input sample_due)
    = Some (appointment, db')
    /\ appointmentsTable db' = [appointment]
    /\ fasting_required appointment = true.
Proof.
  eexists. eexists. split; [reflexivity |].
  destruct (proj2 (createAppointment_fasting_required
                     sample_real sample_now empty_database
                     (sample_input sample_due))
                  _ _ eq_refl) as [H1 H2].
  split; [exact H1 |].
  apply H2. exists "CBC". split; [left; reflexivity | left; reflexivity].
Defined.

(** ** Status updates *)

Lemma update_where_no_match (cond : Sql.Condition) (v : UpdateValues)
    (table : list Appointment) :
  (forall r, In r table -> cond r = false) ->
  Sql.update_where cond v table = (table, []).
Proof.
  unfold Sql.update_where. induction table as [| r table IH]; intros H.
  - reflexivity.
  - cbn. rewrite (H r (or_introl eq_refl)).
    assert (IH' := IH (fun x Hx => H x (or_intror Hx))).
    injection IH' as E1 E2. now rewrite E1, E2.
Qed.

Lemma update_where_rows (cond : Sql.Condition) (v : UpdateValues)
    (table : list Appointment) :
  Forall2 (fun old new => if cond old then new = apply_set v old else new = old)
          table (fst (Sql.update_where cond v table)).
Proof.
  cbn. induction table as [| r table IH]; cbn; constructor; try assumption.
  destruct (cond r); reflexivity.
Qed.

Lemma update_where_returning (cond : Sql.Condition) (v : UpdateValues)
    (table : list Appointment) (old : Appointment) :
  In old table -> cond old = true ->
  exists first rest,
    snd (Sql.update_where cond v table) = apply_set v first :: rest
    /\ In first table /\ cond first = true.
Proof.
  cbn. induction table as [| r table IH]; intros Hin Hc; [contradiction |].
  cbn. destruct (cond r) eqn:E.
  - exists r. eexists. cbn. split; [reflexivity |]. split; [now left | assumption].
  - destruct Hin as [-> | Hin]; [congruence |].
    destruct (IH Hin Hc) as (first & rest & H1 & H2 & H3).
    exists first, rest. split; [assumption |]. split; [now right | assumption].
Qed.

Lemma status_updated_apply_set (now : Date)
    (input : UpdateAppointmentStatusInput.t) (old : Appointment) :
  status_updated now input old
    (apply_set {| set_status := Some (UpdateAppointmentStatusInput.status input);
                  set_notes := UpdateAppointmentStatusInput.notes input;
                  set_updated_at := Some now;
                  set_last_reminder_sent_at := None |} old).
Proof.
  unfold status_updated. cbn.
  repeat split; try reflexivity; intros; cbn;
    match goal with H : _ = _ |- _ => rewrite H end; reflexivity.
Qed.

(** C4. A status update for an id no row carries answers null and leaves the
    database as it was.  Otherwise the answer is a row, and in the new table
    every row of that id has the new status, [updated_at] set to the time of
    the call, its former notes when the input omits notes and no notes when
    the input's notes are null; all other rows are unchanged. *)
Theorem updateAppointmentStatus_spec :
  forall (now : Date) (db : Database) (input : UpdateAppointmentStatusInput.t),
    let target := UpdateAppointmentStatusInput.id input in
    let result := fst (updateAppointmentStatus now db input) in
    let db' := snd (updateAppointmentStatus now db input) in
    ((forall r, In r (appointmentsTable db) -> id r <> target) ->
       result = None /\ db' = db)
    /\ ((exists r, In r (appointmentsTable db) /\ id r = target) ->
          exists old new,
            result = Some new /\ In old (appointmentsTable db)
            /\ id old = target /\ status_updated now input old new)
    /\ Forall2 (fun old new =>
                  if id old =? target then status_updated now input old new
                  else new = old)
               (appointmentsTable db) (appointmentsTable db')
    /\ appointments_id_seq db' = appointments_id_seq db.
Proof.
  intros now db input target result db'.
  subst result db'. unfold updateAppointmentStatus.
  set (v := {| set_status := _ |}).
  fold target.
  split; [| split; [| split]].
  - intros Hno.
    rewrite update_where_no_match.
    + destruct db; split; reflexivity.
    + intros r Hr. unfold Sql.eq_id. apply Z.eqb_neq. now apply Hno.
  - intros (r & Hr & Hid).
    destruct (update_where_returning (Sql.eq_id target) v
                (appointmentsTable db) r Hr) as (first & rest & E & Hin & Hc).
    { unfold Sql.eq_id. now apply Z.eqb_eq. }
    destruct (Sql.update_where (Sql.eq_id target) v (appointmentsTable db))
      as [table returned] eqn:U.
    cbn in E. subst returned. cbn.
    exists first, (apply_set v first).
    split; [reflexivity |]. split; [assumption |].
    split; [now apply Z.eqb_eq in Hc |].
    apply status_updated_apply_set.
  - assert (F := update_where_rows (Sql.eq_id target) v (appointmentsTable db)).
    destruct (Sql.update_where (Sql.eq_id target) v (appointmentsTable db))
      as [table returned] eqn:U.
    cbn in *. eapply Forall2_impl; [| exact F].
    intros old new. unfold Sql.eq_id.
    destruct (id old =? target); [| trivial].
    intros ->. apply status_updated_apply_set.
  - destruct (Sql.update_where (Sql.eq_id target) v (appointmentsTable db)).
    reflexivity.
Qed.

Lemma updateAppointmentStatus_spec_witness :
  (fst (updateAppointmentStatus sample_now one_row_database missing_update)
   = None
   /\ snd (updateAppointmentStatus sample_now one_row_database missing_update)
      = one_row_database)
  /\ exists old new,
       fst (updateAppointmentStatus sample_now one_row_database cancel_first)
       = Some new
       /\ In old (appointmentsTable one_row_database)
       /\ id old = 1
       /\ status_updated sample_now cancel_first old new.
Proof.
  split.
  - apply (proj1 (updateAppointmentStatus_spec sample_now one_row_database
                                               missing_update)).
    intros r [<- | []]. cbn. discriminate.
  - apply (proj1 (proj2 (updateAppointmentStatus_spec
                           sample_now one_row_database cancel_first))).
    eexists. split; [left; reflexivity | reflexivity].
Defined.

(** ** Intake validation *)

Lemma setHours0_local_midnight (tz : Z) (d : Date) :
  setHours0 tz d <= d < setHours0 tz d + MS_PER_DAY
  /\ (setHours0 tz d + tz) mod MS_PER_DAY = 0.
Proof.
  unfold setHours0.
  assert (H : 0 <= (d + tz) mod MS_PER_DAY < MS_PER_DAY)
    by (apply Z.mod_pos_bound; reflexivity).
  split; [lia |].
  replace (d - (d + tz) mod MS_PER_DAY + tz)
    with ((d + tz) - (d + tz) mod MS_PER_DAY) by lia.
  rewrite Zminus_mod_idemp_r, Z.sub_diag. reflexivity.
Qed.

Lemma or3_iff (A A' B B' C C' : Prop) :
  (A <-> A') -> (B <-> B') -> (C <-> C') ->
  (A \/ B \/ C <-> A' \/ B' \/ C').
Proof. tauto. Qed.

(** The issues of the three [refine] steps: each is raised exactly on its
    fault, which is a null and not an empty string. *)
Lemma refine_issues_In (tz : Z) (now : Date)
    (input : CreateAppointmentInput.t) (issue : Issue) :
  In issue (refine_issues tz now input)
  <-> (issue = contact_issue /\ contact_is_null input)
      \/ (issue = date_issue /\ before_today tz now input)
      \/ (issue = address_issue /\ address_is_null input).
Proof.
  unfold refine_issues. cbv zeta. rewrite !in_app_iff.
  apply or3_iff.
  - unfold contact_is_null, contact_issue.
    destruct (CreateAppointmentInput.phone input),
      (CreateAppointmentInput.email input); cbn;
      intuition (congruence || discriminate).
  - unfold before_today, date_issue.
    destruct (Z.leb_spec (setHours0 tz now)
                         (CreateAppointmentInput.preferred_date input));
      cbn; intuition (congruence || lia).
  - unfold address_is_null, address_issue.
    destruct (CreateAppointmentInput.lat input),
      (CreateAppointmentInput.lng input),
      (CreateAppointmentInput.address_street input),
      (CreateAppointmentInput.address_locality input),
      (CreateAppointmentInput.address_city input); cbn;
      intuition (congruence || discriminate).
Qed.

(** The checks of the fields raise none of them. *)
Lemma field_issues_In (is_email : string -> bool)
    (input : CreateAppointmentInput.t) (issue : Issue) :
  In issue (field_issues is_email input) ->
  issue <> contact_issue /\ issue <> date_issue /\ issue <> address_issue.
Proof.
  unfold field_issues, number_issues. rewrite !in_app_iff.
  intros [H | [H | [H | [H | H]]]]; revert H.
  - destruct (CreateAppointmentInput.name input); issue_cases.
  - destruct (CreateAppointmentInput.email input) as [e |];
      [destruct (is_email e) |]; issue_cases.
  - destruct (CreateAppointmentInput.tests input); issue_cases.
  - destruct (CreateAppointmentInput.lat input) as [x |];
      [destruct (z_number x) |]; issue_cases.
  - destruct (CreateAppointmentInput.lng input) as [x |];
      [destruct (z_number x) |]; issue_cases.
Qed.

Lemma aborted_false (input : CreateAppointmentInput.t) :
  aborted input = false <-> coordinates_are_numbers input.
Proof.
  unfold aborted, coordinates_are_numbers.
  destruct (CreateAppointmentInput.lat input) as [[] |],
    (CreateAppointmentInput.lng input) as [[] |]; cbn;
    intuition (congruence || discriminate).
Qed.

(** An aborted parse reports the coordinate that is NaN. *)
Lemma aborted_nan_issue (is_email : string -> bool)
    (input : CreateAppointmentInput.t) :
  aborted input = true ->
  In (nan_issue "lat") (field_issues is_email input)
  \/ In (nan_issue "lng") (field_issues is_email input).
Proof.
  unfold aborted, field_issues, number_issues, nan_issue.
  rewrite !in_app_iff.
  destruct (CreateAppointmentInput.lat input) as [[] |],
    (CreateAppointmentInput.lng input) as [[] |]; cbn;
    intuition discriminate.
Qed.

Lemma schema_numbers (is_email : string -> bool) (tz : Z) (now : Date)
    (input : CreateAppointmentInput.t) :
  coordinates_are_numbers input ->
  createAppointmentInputSchema is_email tz now input
  = (field_issues is_email input ++ refine_issues tz now input)%list.
Proof.
  intros H. apply aborted_false in H. unfold createAppointmentInputSchema.
  now rewrite H.
Qed.

(** On an input whose coordinates are numbers, each of the three issues is
    in the answer of the schema exactly on its fault. *)
Lemma schema_refine_issue (is_email : string -> bool) (tz : Z) (now : Date)
    (input : CreateAppointmentInput.t) :
  coordinates_are_numbers input ->
  (In contact_issue (createAppointmentInputSchema is_email tz now input)
   <-> contact_is_null input)
  /\ (In date_issue (createAppointmentInputSchema is_email tz now input)
      <-> before_today tz now input)
  /\ (In address_issue (createAppointmentInputSchema is_email tz now input)
      <-> address_is_null input).
Proof.
  intros H. rewrite (schema_numbers is_email tz now input H).
  rewrite !in_app_iff, !refine_issues_In.
  split; [| split];
    (split;
     [intros [H' | H'];
      [apply field_issues_In in H'; tauto
      | destruct H' as [[E H'] | [[E H'] | [E H']]];
        (exact H' || discriminate E)]
     | intros H'; right; intuition]).
Qed.

Lemma createAppointment_rejected is_email real tz now w input issue :
  In issue (createAppointmentInputSchema is_email tz now input) ->
  Router.createAppointment is_email real tz now w input
  = (Router.BadRequest (createAppointmentInputSchema is_email tz now input), w).
Proof.
  unfold Router.createAppointment.
  destruct (createAppointmentInputSchema is_email tz now input);
    [contradiction | reflexivity].
Qed.

(** C5, as amended.  An input whose phone and e-mail are both null, or
    whose preferred date is before the start of the current local day, or
    in which a coordinate is null and so is one of street, locality and
    city, is rejected: the answer carries issues, and the database and the
    outbox are as before.  When the coordinates are numbers, each of the
    three issues is in the answer exactly on its fault, for which an empty
    string does not count; when a coordinate is NaN, the answer names
    that coordinate instead. *)
Theorem createAppointment_rejects_invalid :
  forall (is_email : string -> bool) (real : RealColumn) (tz : Z)
         (now : Date) (w : World) (input : CreateAppointmentInput.t),
    contact_is_null input \/ before_today tz now input
    \/ address_is_null input ->
    exists issues,
      Router.createAppointment is_email real tz now w input
      = (Router.BadRequest issues, w)
      /\ issues <> []
      /\ (coordinates_are_numbers input ->
          (In contact_issue issues <-> contact_is_null input)
          /\ (In date_issue issues <-> before_today tz now input)
          /\ (In address_issue issues <-> address_is_null input))
      /\ (~ coordinates_are_numbers input ->
          In (nan_issue "lat") issues \/ In (nan_issue "lng") issues).
Proof.
  intros is_email real tz now w input H.
  exists (createAppointmentInputSchema is_email tz now input).
  assert (Hin : exists issue,
             In issue (createAppointmentInputSchema is_email tz now input)).
  { destruct (aborted input) eqn:A.
    - unfold createAppointmentInputSchema. rewrite A.
      destruct (aborted_nan_issue is_email input A) as [Hn | Hn];
        eexists; exact Hn.
    - apply aborted_false in A.
      destruct (schema_refine_issue is_email tz now input A)
        as (Hc & Hd & Ha).
      destruct H as [H | [H | H]].
      + exists contact_issue. now apply Hc.
      + exists date_issue. now apply Hd.
      + exists address_issue. now apply Ha. }
  destruct Hin as [issue Hin].
  split; [eapply createAppointment_rejected, Hin |].
  split; [intros E; rewrite E in Hin; exact Hin |].
  split; [apply schema_refine_issue |].
  intros Hn. unfold createAppointmentInputSchema.
  destruct (aborted input) eqn:A.
  - now apply aborted_nan_issue.
  - elim Hn. now apply aborted_false.
Qed.

(** On an input whose only fault is a preferred date some days gone, the
    answer is the issue of the date and no other. *)
Lemma createAppointment_rejects_invalid_witness :
  exists issues,
    Router.createAppointment sample_is_email sample_real IST sample_now
                             empty_world stale_input
    = (Router.BadRequest issues, empty_world)
    /\ issues <> []
    /\ In date_issue issues
    /\ ~ In contact_issue issues
    /\ ~ In address_issue issues.
Proof.
  destruct (createAppointment_rejects_invalid
              sample_is_email sample_real IST sample_now empty_world
              stale_input)
    as (issues & E & Hne & Hnum & _).
  - right. left. unfold before_today. vm_compute. reflexivity.
  - exists issues. split; [exact E |]. split; [exact Hne |].
    assert (Hn : coordinates_are_numbers stale_input)
      by (split; intros Hx; vm_compute in Hx; discriminate Hx).
    destruct (Hnum Hn) as (Hc & Hd & Ha).
    split; [apply Hd; unfold before_today; vm_compute; reflexivity |].
    split.
    + intros Hi. apply Hc in Hi. destruct Hi as [Hp _].
      vm_compute in Hp. discriminate Hp.
    + intros Hi. apply Ha in Hi. destruct Hi as [_ [Hl | [Hl | Hl]]];
        vm_compute in Hl; discriminate Hl.
Defined.

(** C5 as stated fails, in two ways.  A preferred date that is already
    past, but on the current local day, passes validation and the
    appointment is stored.  So does an input whose phone is the empty
    string, with no e-mail, and whose street, locality and city are empty
    strings, with no coordinates: the stored appointment has no contact
    the senders would use and an address that is exported as empty. *)
Lemma createAppointment_accepts_past_and_blank :
  (CreateAppointmentInput.preferred_date (sample_input this_morning)
   < sample_now
   /\ exists response w',
        Router.createAppointment sample_is_email sample_real IST sample_now
                                 empty_world (sample_input this_morning)
        = (Router.Ok response, w')
        /\ appointmentsTable (db w')
           = [AppointmentCreatedResponse.appointment response]
        /\ preferred_date (AppointmentCreatedResponse.appointment response)
           = this_morning)
  /\ exists response w',
       Router.createAppointment sample_is_email sample_real IST sample_now
                                empty_world blank_input
       = (Router.Ok response, w')
       /\ appointmentsTable (db w')
          = [AppointmentCreatedResponse.appointment response]
       /\ Js.truthy (phone (AppointmentCreatedResponse.appointment response))
          = false
       /\ email (AppointmentCreatedResponse.appointment response) = None
       /\ reminder_attempts (AppointmentCreatedResponse.appointment response)
          = []
       /\ lat (AppointmentCreatedResponse.appointment response) = None
       /\ formatAddress (AppointmentCreatedResponse.appointment response)
          = "".
Proof.
  split.
  - split; [reflexivity |].
    eexists. eexists. split; [vm_compute; reflexivity |].
    split; reflexivity.
  - eexists. eexists. split; [vm_compute; reflexivity |].
    repeat split.
Qed.

(** ** Notifications on intake *)

(** The fan-out of the dispatcher: the customer by e-mail when an e-mail is
    present, by message when a phone is present, then the administrator by
    e-mail and by message, always. *)
Lemma sendAppointmentNotifications_fan_out (transport : Transport)
    (appointment : Appointment) (box : list Attempt) :
  sendAppointmentNotifications transport appointment box
  = (box
     ++ (if Js.truthy (email appointment)
         then [attempt CustomerEmailNotification appointment] else [])
     ++ (if Js.truthy (phone appointment)
         then [attempt CustomerWhatsAppNotification appointment] else [])
     ++ [attempt AdminEmailNotification appointment;
         attempt AdminWhatsAppNotification appointment])%list.
Proof.
  unfold sendAppointmentNotifications, send_all. cbn [snd].
  destruct (Js.truthy (email appointment)), (Js.truthy (phone appointment));
    reflexivity.
Qed.

(** C1, the behaviour of the code.  The [createAppointment] procedure never
    calls the dispatcher: whatever the input, the outbox after the call is
    the outbox before it, although the dispatcher, had it been called for
    the created appointment, would have added the two administrator
    notifications at least.  On the valid sample input the appointment is
    stored and answered and no notification is attempted, where the
    dispatcher would have made four attempts. *)
Theorem createAppointment_sends_nothing :
  (forall (is_email : string -> bool) (real : RealColumn) (tz : Z)
          (now : Date) (w : World) (input : CreateAppointmentInput.t),
      outbox (snd (Router.createAppointment is_email real tz now w input))
      = outbox w
      /\ forall (transport : Transport) (appointment : Appointment),
           exists customer,
             sendAppointmentNotifications transport appointment (outbox w)
             = (outbox w ++ customer
                ++ [attempt AdminEmailNotification appointment;
                    attempt AdminWhatsAppNotification appointment])%list)
  /\ exists response w',
       Router.createAppointment sample_is_email sample_real IST sample_now
                                empty_world (sample_input sample_due)
       = (Router.Ok response, w')
       /\ appointmentsTable (db w')
          = [AppointmentCreatedResponse.appointment response]
       /\ outbox w' = []
       /\ sendAppointmentNotifications
            stub_transport (AppointmentCreatedResponse.appointment response)
            (outbox w')
          = [attempt CustomerEmailNotification
                     (AppointmentCreatedResponse.appointment response);
             attempt CustomerWhatsAppNotification
                     (AppointmentCreatedResponse.appointment response);
             attempt AdminEmailNotification
                     (AppointmentCreatedResponse.appointment response);
             attempt AdminWhatsAppNotification
                     (AppointmentCreatedResponse.appointment response)].
Proof.
  split.
  - intros is_email real tz now w input. split.
    + unfold Router.createAppointment.
      destruct (createAppointmentInputSchema is_email tz now input);
        [destruct (createAppointment real now (db w) input) as [[a d] |] |];
        reflexivity.
    + intros transport appointment.
      rewrite sendAppointmentNotifications_fan_out.
      eexists. rewrite <- app_assoc with (n := [_; _]). reflexivity.
  - eexists. eexists. split; [vm_compute; reflexivity |].
    repeat split.
Qed.

(** ** Selection of the appointments to remind *)

Lemma tomorrow_next_midnight (tz : Z) (now : Date) :
  tomorrow tz now = setHours0 tz now + MS_PER_DAY.
Proof.
  unfold tomorrow, nextDate, setHours0.
  replace (now + MS_PER_DAY + tz) with (now + tz + 1 * MS_PER_DAY) by lia.
  rewrite Z_mod_plus_full. lia.
Qed.

(** The window of the reminder job starts at the local midnight that follows
    [now] and spans one day. *)
Lemma reminder_window (tz : Z) (now : Date) :
  now < tomorrow tz now <= now + MS_PER_DAY
  /\ (tomorrow tz now + tz) mod MS_PER_DAY = 0
  /\ dayAfterTomorrow tz now = tomorrow tz now + MS_PER_DAY.
Proof.
  destruct (setHours0_local_midnight tz now) as [Hb Hm].
  unfold dayAfterTomorrow, nextDate.
  rewrite tomorrow_next_midnight.
  split; [lia |]. split; [| reflexivity].
  replace (setHours0 tz now + MS_PER_DAY + tz)
    with (setHours0 tz now + tz + 1 * MS_PER_DAY) by lia.
  now rewrite Z_mod_plus_full.
Qed.

Lemma eq_status_true (v : AppointmentStatus) (r : Appointment) :
  Sql.eq_status v r = true <-> status r = v.
Proof.
  unfold Sql.eq_status. destruct (status r), v; cbn; split; congruence.
Qed.

Lemma reminder_condition_true (tz : Z) (now : Date) (a : Appointment) :
  reminder_condition tz now a = true
  <-> tomorrow tz now <= preferred_date a <= dayAfterTomorrow tz now
      /\ (status a = Received \/ status a = Confirmed)
      /\ (last_reminder_sent_at a = None
          \/ exists t, last_reminder_sent_at a = Some t
                       /\ MS_PER_DAY <= now - t).
Proof.
  unfold reminder_condition, Sql.and_, Sql.or_. cbn [forallb existsb].
  rewrite !andb_true_iff, !orb_true_iff, !eq_status_true.
  unfold Sql.gte, Sql.lte, Sql.isNull, Sql.lte_nullable.
  rewrite !Z.leb_le.
  change (24 * 60 * 60 * 1000) with MS_PER_DAY.
  destruct (last_reminder_sent_at a) as [t |].
  - rewrite Z.leb_le. split.
    + intros (H1 & H2 & H3 & H4 & _). repeat split; try assumption.
      * destruct H3 as [H3 | [H3 | H3]]; [now left | now right | discriminate].
      * right. exists t. split; [reflexivity |].
        destruct H4 as [H4 | [H4 | H4]]; try discriminate. lia.
    + intros ((H1 & H2) & H3 & H4). repeat split; try assumption.
      * destruct H3; [now left | right; now left].
      * right. left. destruct H4 as [H4 | (t' & E & H4)]; [discriminate |].
        injection E as <-. lia.
  - split.
    + intros (H1 & H2 & H3 & _). repeat split; try assumption.
      * destruct H3 as [H3 | [H3 | H3]]; [now left | now right | discriminate].
      * now left.
    + intros ((H1 & H2) & H3 & _). repeat split; try assumption.
      * destruct H3; [now left | right; now left].
      * now left.
Qed.

(** C2, as amended.  The window starts at the local midnight that follows
    the time of the run and ends one day later.  Among the appointments
    whose preferred date is not the
    very first instant of the day after tomorrow, the job selects exactly
    those of the table dated in the window from the start of tomorrow to the
    start of the day after, with status Received or Confirmed, whose last
    reminder is absent or at least 24 hours old.  An appointment dated
    after the start of the day after tomorrow is never selected, nor is
    one whose status is Completed. *)
Theorem reminder_selection :
  forall (tz : Z) (now : Date) (table : list Appointment) (a : Appointment),
    (now < tomorrow tz now <= now + MS_PER_DAY
     /\ (tomorrow tz now + tz) mod MS_PER_DAY = 0
     /\ dayAfterTomorrow tz now = tomorrow tz now + MS_PER_DAY)
    /\ (preferred_date a <> dayAfterTomorrow tz now ->
       (In a (reminder_candidates tz now table)
        <-> In a table /\ reminder_due tz now a))
    /\ (dayAfterTomorrow tz now < preferred_date a ->
          ~ In a (reminder_candidates tz now table))
    /\ (status a = Completed -> ~ In a (reminder_candidates tz now table)).
Proof.
  intros tz now table a. split; [apply reminder_window |].
  unfold reminder_candidates, Sql.select_where.
  rewrite filter_In, reminder_condition_true. unfold reminder_due.
  split; [| split].
  - intros Hne. split.
    + intros (Hin & (H1 & H2) & H3 & H4). repeat split; try assumption. lia.
    + intros (Hin & (H1 & H2) & H3 & H4). repeat split; try assumption. lia.
  - intros Hlate (_ & (_ & H2) & _). lia.
  - intros Hst (_ & _ & [H | H] & _); congruence.
Qed.

Lemma reminder_selection_witness :
  (In due_tomorrow
      (reminder_candidates IST sample_now
         [due_tomorrow; due_in_two_days; completed_tomorrow])
   <-> In due_tomorrow [due_tomorrow; due_in_two_days; completed_tomorrow]
       /\ reminder_due IST sample_now due_tomorrow)
  /\ ~ In due_in_two_days
          (reminder_candidates IST sample_now
             [due_tomorrow; due_in_two_days; completed_tomorrow])
  /\ ~ In completed_tomorrow
          (reminder_candidates IST sample_now
             [due_tomorrow; due_in_two_days; completed_tomorrow]).
Proof.
  split; [| split].
  - apply (proj1 (proj2 (reminder_selection IST sample_now
                           [due_tomorrow; due_in_two_days; completed_tomorrow]
                           due_tomorrow))).
    vm_compute. discriminate.
  - apply (proj1 (proj2 (proj2 (reminder_selection IST sample_now
                           [due_tomorrow; due_in_two_days; completed_tomorrow]
                           due_in_two_days)))).
    vm_compute. reflexivity.
  - apply (proj2 (proj2 (proj2 (reminder_selection IST sample_now
                           [due_tomorrow; due_in_two_days; completed_tomorrow]
                           completed_tomorrow)))).
    reflexivity.
Defined.

(** C2 as stated fails at both ends: the job selects an appointment whose
    last reminder is exactly, not more than, 24 hours old, and it selects an
    appointment dated at the start of the day after tomorrow. *)
Lemma reminder_selection_not_as_specified :
  (In reminded_a_day_ago
      (reminder_candidates IST sample_now [reminded_a_day_ago])
   /\ ~ reminder_due_as_specified IST sample_now reminded_a_day_ago)
  /\ (In due_at_window_end
         (reminder_candidates IST sample_now [due_at_window_end])
      /\ ~ reminder_due_as_specified IST sample_now due_at_window_end).
Proof.
  split; split.
  - vm_compute. now left.
  - intros (_ & _ & [H | (t & E & H)]); [discriminate |].
    injection E as <-. vm_compute in H. discriminate.
  - vm_compute. now left.
  - intros ((_ & H) & _). vm_compute in H. discriminate.
Qed.

(** ** The reminder batch *)

Section ReminderBatch.

(** The delivery behind the send functions, the zone and the time of the
    run are arbitrary and fixed throughout. *)
Variable transport : Transport.
Variables (tz : Z) (now : Date).

Lemma sendReminderNotifications_result (a : Appointment)
    (box : list Attempt) :
  sendReminderNotifications transport a box
  = (reminder_delivered transport a, (box ++ reminder_attempts a)%list).
Proof.
  unfold sendReminderNotifications, reminder_delivered, reminder_attempts,
    send_all, attempt.
  destruct (Js.truthy (email a)), (Js.truthy (phone a)); cbn;
    rewrite ?orb_false_r, ?app_nil_r; reflexivity.
Qed.

Lemma reminder_loop (l : list Appointment) :
  forall (stats : ReminderStats) (w : World),
    fold_left (reminder_step transport now) l (stats, w)
    = ({| processed := processed stats + Z.of_nat (List.length l);
          sent := sent stats
                  + Z.of_nat (List.length
                                (filter (reminder_delivered transport) l)) |},
       {| db := {| appointmentsTable :=
                     mark_rows transport now l (appointmentsTable (db w));
                   appointments_id_seq := appointments_id_seq (db w) |};
          outbox := (outbox w ++ flat_map reminder_attempts l)%list |}).
Proof.
  induction l as [| a l IH]; intros stats w.
  - destruct stats, w as [[table seq] box]. cbn.
    unfold mark_rows. cbn. rewrite map_id, app_nil_r, !Z.add_0_r. reflexivity.
  - cbn [fold_left]. unfold reminder_step at 2.
    rewrite sendReminderNotifications_result.
    destruct (reminder_delivered transport a) eqn:D.
    + rewrite IH. cbn [processed sent db outbox appointmentsTable
                       appointments_id_seq fst Sql.update_where].
      f_equal.
      * f_equal.
        -- cbn [List.length]. lia.
        -- cbn [filter]. rewrite D. cbn [List.length]. lia.
      * f_equal.
        -- f_equal. unfold mark_rows. rewrite map_map.
           apply map_ext. intros r. cbn [existsb]. rewrite D, andb_true_r.
           unfold Sql.eq_id. destruct (id r =? id a); cbn [orb].
           ++ destruct (existsb _ l); reflexivity.
           ++ reflexivity.
        -- cbn [flat_map]. now rewrite app_assoc.
    + rewrite IH. cbn [processed sent db outbox appointmentsTable
                       appointments_id_seq].
      f_equal.
      * f_equal.
        -- cbn [List.length]. lia.
        -- cbn [filter]. rewrite D. reflexivity.
      * f_equal.
        -- f_equal. unfold mark_rows. apply map_ext. intros r.
           cbn [existsb]. rewrite D, andb_false_r. reflexivity.
        -- cbn [flat_map]. now rewrite app_assoc.
Qed.

Lemma In_same_id (table : list Appointment) (a b : Appointment) :
  NoDup (map id table) -> In a table -> In b table -> id a = id b -> a = b.
Proof.
  induction table as [| r table IH]; cbn; intros Hnd Ha Hb E; [contradiction |].
  apply NoDup_cons_iff in Hnd. destruct Hnd as [Hr Hnd].
  destruct Ha as [-> | Ha], Hb as [-> | Hb]; try reflexivity.
  - exfalso. apply Hr. rewrite E. now apply in_map.
  - exfalso. apply Hr. rewrite <- E. now apply in_map.
  - now apply IH.
Qed.

Lemma marked_by_id (table : list Appointment) (r : Appointment) :
  NoDup (map id table) -> In r table ->
  existsb (fun a => (id r =? id a) && reminder_delivered transport a)
          (reminder_candidates tz now table)
  = reminder_condition tz now r && reminder_delivered transport r.
Proof.
  intros Hnd Hr. apply eq_true_iff_eq.
  rewrite existsb_exists, andb_true_iff.
  unfold reminder_candidates, Sql.select_where. split.
  - intros (a & Ha & H). apply andb_true_iff in H. destruct H as [E D].
    apply filter_In in Ha. destruct Ha as [Ha C].
    apply Z.eqb_eq in E.
    assert (a = r) by (symmetry in E; eauto using In_same_id).
    subst a. split; assumption.
  - intros [C D]. exists r. split.
    + apply filter_In. split; assumption.
    + now rewrite Z.eqb_refl, D.
Qed.

Lemma marked_reminded_apply_set (old : Appointment) :
  marked_reminded now old (apply_set (reminded now) old).
Proof. unfold marked_reminded. cbn. repeat split. Qed.

Lemma Forall2_map_In {A B : Type} (f : A -> B) (R : A -> B -> Prop)
    (l : list A) :
  (forall x, In x l -> R x (f x)) -> Forall2 R l (map f l).
Proof.
  induction l as [| x l IH]; intros H; cbn; constructor.
  - apply H. now left.
  - apply IH. intros y Hy. apply H. now right.
Qed.

(** C6. In a run of the reminder job over a table with distinct ids:
    [processed] counts the selected appointments; [sent] counts those of
    them for which a channel delivered, the e-mail channel applying when an
    e-mail is present and the message channel when a phone is; exactly the
    rows of these appointments get [last_reminder_sent_at] and [updated_at]
    set to the time of the run, every other row staying as it was; and an
    appointment with neither e-mail nor phone is never among the sent ones.
    The counts and the fate of a row depend on its own deliveries only. *)
Theorem sendNextDayReminders_counts_and_marks :
  forall (w : World),
    NoDup (map id (appointmentsTable (db w))) ->
    let selected := reminder_candidates tz now (appointmentsTable (db w)) in
    let stats := fst (sendNextDayReminders transport tz now w) in
    let w' := snd (sendNextDayReminders transport tz now w) in
    processed stats = Z.of_nat (List.length selected)
    /\ sent stats
       = Z.of_nat (List.length (filter (reminder_delivered transport)
                                       selected))
    /\ Forall2 (fun old new =>
                  if reminder_condition tz now old
                     && reminder_delivered transport old
                  then marked_reminded now old new
                  else new = old)
               (appointmentsTable (db w)) (appointmentsTable (db w'))
    /\ (forall a, Js.truthy (email a) = false -> Js.truthy (phone a) = false ->
                  reminder_delivered transport a = false)
    /\ outbox w' = (outbox w ++ flat_map reminder_attempts selected)%list.
Proof.
  intros w Hnd selected stats w'.
  subst stats w'. unfold sendNextDayReminders. fold selected.
  rewrite reminder_loop. cbn [fst snd processed sent db appointmentsTable outbox].
  repeat split.
  - unfold mark_rows. apply Forall2_map_In. intros r Hr.
    subst selected. rewrite marked_by_id by assumption.
    destruct (reminder_condition tz now r && reminder_delivered transport r);
      [apply marked_reminded_apply_set | reflexivity].
  - intros a He Hp. unfold reminder_delivered. now rewrite He, Hp.
Qed.

End ReminderBatch.

(** Three appointments are selected; the deliveries for the first fail, the
    last has no contact, and only the second one selected is sent and
    marked. *)
Lemma sendNextDayReminders_counts_and_marks_witness :
  processed (fst (sendNextDayReminders flaky_transport IST sample_now
                                       reminder_world)) = 3
  /\ sent (fst (sendNextDayReminders flaky_transport IST sample_now
                                     reminder_world)) = 1
  /\ Forall2 (fun old new =>
                if reminder_condition IST sample_now old
                   && reminder_delivered flaky_transport old
                then marked_reminded sample_now old new
                else new = old)
             (appointmentsTable (db reminder_world))
             (appointmentsTable
                (db (snd (sendNextDayReminders flaky_transport IST sample_now
                                               reminder_world)))).
Proof.
  assert (Hnd : NoDup (map id (appointmentsTable (db reminder_world)))).
  { cbn. repeat constructor; cbn; intuition discriminate. }
  destruct (sendNextDayReminders_counts_and_marks
              flaky_transport IST sample_now reminder_world Hnd)
    as (Hp & Hs & Hrows & _).
  split; [rewrite Hp; reflexivity |].
  split; [rewrite Hs; reflexivity | exact Hrows].
Defined.

(** ** CSV escaping *)

Lemma includes_In (s : string) (c : ascii) :
  Js.includes s c = true <-> In c (list_ascii_of_string s).
Proof.
  induction s as [| x s IH]; cbn.
  - split; [discriminate | contradiction].
  - rewrite orb_true_iff, IH, Ascii.eqb_eq. reflexivity.
Qed.

Lemma special_includes (s : string) :
  has_special s
  <-> (Js.includes s Js.comma || Js.includes s Js.dquote
       || Js.includes s Js.LF || Js.includes s Js.CR) = true.
Proof.
  rewrite !orb_true_iff, !includes_In. unfold has_special. split.
  - intros (c & Hc & [-> | [-> | [-> | ->]]]); tauto.
  - intros [[[H | H] | H] | H]; eexists; (split; [exact H | tauto]).
Qed.

Lemma double_quotes_quoted (s : string) :
  String Js.dquote (Js.double_quotes s ++ String Js.dquote "") = csv_quoted s.
Proof.
  unfold csv_quoted. cbn. f_equal.
  induction s as [| c s IH]; [reflexivity |].
  cbn. destruct (Ascii.eqb c Js.dquote); cbn; now rewrite IH.
Qed.

Lemma unquote_double_quotes (s : string) :
  unquote (Js.double_quotes s ++ String Js.dquote "") = Some s.
Proof.
  induction s as [| c s IH]; [reflexivity |].
  cbn [Js.double_quotes]. destruct (Ascii.eqb c Js.dquote) eqn:E.
  - apply Ascii.eqb_eq in E. subst c. cbn. rewrite IH. reflexivity.
  - cbn. rewrite E, IH. reflexivity.
Qed.

Lemma escapeCSV_string (s : string) :
  (has_special s -> escapeCSV (JsStr s) = csv_quoted s)
  /\ (~ has_special s -> escapeCSV (JsStr s) = s).
Proof.
  rewrite special_includes. unfold escapeCSV. cbn [String_of].
  destruct (Js.includes s Js.comma || Js.includes s Js.dquote
            || Js.includes s Js.LF || Js.includes s Js.CR).
  - split; [intros _; apply double_quotes_quoted | intros H; now elim H].
  - split; [discriminate | reflexivity].
Qed.

Lemma escapeCSV_read_back (s : string) :
  csv_read_field (escapeCSV (JsStr s)) = Some s.
Proof.
  unfold escapeCSV. cbn [String_of].
  destruct (Js.includes s Js.comma || Js.includes s Js.dquote
            || Js.includes s Js.LF || Js.includes s Js.CR) eqn:E.
  - cbn. apply unquote_double_quotes.
  - destruct s as [| c s]; [reflexivity |].
    cbn in E. cbn. destruct (Ascii.eqb c Js.dquote).
    + rewrite orb_true_r in E. discriminate.
    + reflexivity.
Qed.

Lemma split_line (s : string) :
  Js.includes s Js.LF = false -> Js.split Js.LF s = [s].
Proof.
  induction s as [| c s IH]; cbn; [reflexivity |].
  destruct (Ascii.eqb c Js.LF); cbn; [discriminate |].
  intros H. now rewrite IH.
Qed.

(** The fields of a data row are the escaped values of the appointment. *)
Lemma csv_row_values (number_toString : JsNumber -> string)
    (a : Appointment) :
  csv_row number_toString a
  = map (fun x => escapeCSV (JsStr x)) (csv_values number_toString a).
Proof.
  unfold csv_row, csv_values. cbn [map].
  destruct (phone a), (email a), (notes a), (slot_hint a); reflexivity.
Qed.

Lemma escapeCSV_field (s : string) : csv_field s (escapeCSV (JsStr s)).
Proof.
  destruct (escapeCSV_string s) as [H1 H2].
  split; [exact H1 |]. split; [exact H2 | apply escapeCSV_read_back].
Qed.

(** C7. On a value that holds a comma, a double quote or a line break,
    [escapeCSV] gives the value in double quotes with each inner double
    quote doubled, so that reading the field back yields the value; any
    other string is rendered as it stands; null and undefined are rendered
    as the empty string.  The exporter renders every value this way: the
    fifteen fields of a data row are, column by column, the fields of the
    fifteen values of the appointment, a column that is null being the
    empty string, and the exported text is the header line followed by
    one line for each selected appointment, its fields joined by commas.
    When the filter selects no row, the output is the header and nothing
    else: a single line. *)
Theorem escapeCSV_quoting :
  (forall s : string,
      (has_special s -> escapeCSV (JsStr s) = csv_quoted s)
      /\ (~ has_special s -> escapeCSV (JsStr s) = s)
      /\ csv_read_field (escapeCSV (JsStr s)) = Some s)
  /\ (forall n : Z, escapeCSV (JsNum n) = escapeCSV (JsStr (Js.String_of_int n)))
  /\ escapeCSV JsNull = "" /\ escapeCSV JsUndefined = ""
  /\ (forall (number_toString : JsNumber -> string) (a : Appointment),
         Forall2 csv_field (csv_values number_toString a)
                 (csv_row number_toString a)
         /\ Forall (fun column =>
                      nth (fst column) (csv_row number_toString a) "?"
                      = match snd column with
                        | Some s => escapeCSV (JsStr s)
                        | None => ""
                        end)
                   (nullable_columns a)
         /\ List.length (csv_row number_toString a) = List.length csv_headers)
  /\ (forall (number_toString : JsNumber -> string)
             (table : list Appointment)
             (filter : option GetAppointmentsFilter.t),
         exportAppointmentsCSV number_toString table filter
         = Js.join (String Js.LF "")
             (header_line
              :: map (fun a => Js.join "," (csv_row number_toString a))
                     (exportAppointmentsCSV_rows table filter)))
  /\ (forall (number_toString : JsNumber -> string)
             (table : list Appointment)
             (filter : option GetAppointmentsFilter.t),
         exportAppointmentsCSV_rows table filter = [] ->
         exportAppointmentsCSV number_toString table filter = header_line
         /\ Js.split Js.LF
                     (exportAppointmentsCSV number_toString table filter)
            = [header_line]).
Proof.
  split; [| split; [| split; [| split; [| split; [| split]]]]].
  - exact escapeCSV_field.
  - reflexivity.
  - reflexivity.
  - reflexivity.
  - intros number_toString a. split; [| split; [| reflexivity]].
    + rewrite csv_row_values. apply Forall2_map_In.
      intros value _. apply escapeCSV_field.
    + unfold nullable_columns, csv_row.
      repeat constructor; cbn [fst snd nth nullable option_map];
        match goal with
        | |- context [match ?v with Some _ => _ | None => _ end] =>
            destruct v; reflexivity
        end.
  - reflexivity.
  - intros number_toString table filter H.
    unfold exportAppointmentsCSV. rewrite H. cbn [map].
    change (Js.join (String Js.LF "") [Js.join "," csv_headers])
      with header_line.
    split; [reflexivity | apply split_line; reflexivity].
Qed.

(** On the samples: a name with double quotes, an address with a comma and
    a plain city; in the row of a booking named with a comma the name is
    quoted, and in the row of a booking without phone the phone is empty;
    a filter that selects nothing gives the header alone. *)
Lemma escapeCSV_quoting_witness :
  (escapeCSV (JsStr quoted_name) = csv_quoted quoted_name
   /\ escapeCSV (JsStr "Main St, Apt 2") = csv_quoted "Main St, Apt 2"
   /\ escapeCSV (JsStr "Mumbai") = "Mumbai")
  /\ nth 1 (csv_row integral_toString comma_booking) "?"
     = csv_quoted "Rao, Asha"
  /\ nth 2 (csv_row integral_toString plain_booking) "?" = ""
  /\ exportAppointmentsCSV integral_toString [due_tomorrow]
                           (Some cancelled_only) = header_line
  /\ Js.split Js.LF (exportAppointmentsCSV integral_toString [due_tomorrow]
                                           (Some cancelled_only))
     = [header_line].
Proof.
  split; [split; [| split] | split; [| split]].
  - apply (proj1 (proj1 escapeCSV_quoting quoted_name)).
    exists Js.dquote. split; [cbn; tauto | tauto].
  - apply (proj1 (proj1 escapeCSV_quoting "Main St, Apt 2")).
    exists Js.comma. split; [cbn; tauto | tauto].
  - apply (proj1 (proj2 (proj1 escapeCSV_quoting "Mumbai"))).
    intros (c & Hc & Hs). cbn in Hc.
    destruct Hs as [-> | [-> | [-> | ->]]];
      repeat (destruct Hc as [Hc | Hc]; [discriminate |]); exact Hc.
  - pose proof (proj1 (proj1 (proj2 (proj2 (proj2 (proj2 escapeCSV_quoting))))
                         integral_toString comma_booking)) as H.
    apply Forall2_cons_iff in H. destruct H as [_ H].
    apply Forall2_cons_iff in H. destruct H as [(H & _) _].
    apply H. exists Js.comma. split; [cbn; tauto | tauto].
  - pose proof (proj1 (proj2 (proj1 (proj2 (proj2 (proj2 (proj2
                         escapeCSV_quoting))))
                         integral_toString plain_booking))) as H.
    apply Forall_inv in H. exact H.
  - apply (proj2 (proj2 (proj2 (proj2 (proj2 (proj2 escapeCSV_quoting)))))
             integral_toString [due_tomorrow] (Some cancelled_only)).
    reflexivity.
Defined.

(** ** Ordering of the list query *)

Lemma select_conditions_filter (conditions : list Sql.Condition)
    (table : list Appointment) :
  select_conditions conditions table = filter (Sql.and_ conditions) table.
Proof.
  unfold select_conditions, Sql.select_where.
  destruct conditions as [| c [| c' rest]]; try reflexivity.
  - induction table as [| r table IH]; [reflexivity |].
    cbn. now rewrite <- IH.
  - apply filter_ext. intros r. unfold Sql.and_. cbn. now rewrite andb_true_r.
Qed.

Lemma insert_desc_Permutation (key : Appointment -> Z) (r : Appointment)
    (l : list Appointment) :
  Permutation (r :: l) (Sql.insert_desc key r l).
Proof.
  induction l as [| x l IH]; cbn; [reflexivity |].
  destruct (key x <=? key r); [reflexivity |].
  rewrite perm_swap. now constructor.
Qed.

Lemma order_by_desc_Permutation (key : Appointment -> Z)
    (l : list Appointment) :
  Permutation l (Sql.order_by_desc key l).
Proof.
  induction l as [| r l IH]; cbn; [constructor |].
  rewrite <- insert_desc_Permutation. now constructor.
Qed.

Lemma insert_desc_sorted (key : Appointment -> Z) (r : Appointment)
    (l : list Appointment) :
  Sql.sorted_desc key l -> Sql.sorted_desc key (Sql.insert_desc key r l).
Proof.
  unfold Sql.sorted_desc. induction l as [| x l IH]; cbn; intros H.
  - repeat constructor.
  - apply StronglySorted_inv in H. destruct H as [Hl Hx].
    destruct (Z.leb_spec (key x) (key r)).
    + constructor; [now constructor |].
      constructor; [assumption |].
      eapply Forall_impl; [| exact Hx]. cbn. intros b Hb. lia.
    + constructor; [now apply IH |].
      eapply Permutation_Forall; [apply insert_desc_Permutation |].
      constructor; [lia | assumption].
Qed.

Lemma order_by_desc_sorted (key : Appointment -> Z) (l : list Appointment) :
  Sql.sorted_desc key (Sql.order_by_desc key l).
Proof.
  induction l as [| r l IH]; cbn.
  - constructor.
  - now apply insert_desc_sorted.
Qed.

Lemma optional_condition {A : Type} (o : option A) (c : A -> Sql.Condition)
    (a : Appointment) :
  forallb (fun c' : Sql.Condition => c' a)
          (match o with Some v => [c v] | None => [] end) = true
  <-> forall v, o = Some v -> c v a = true.
Proof.
  destruct o as [v |]; cbn.
  - rewrite andb_true_r. split; [intros H v' E; now injection E as <- | auto].
  - split; [discriminate | reflexivity].
Qed.

Lemma truthy_nonempty (s : string) : Js.truthy (Some s) = true <-> s <> "".
Proof. destruct s; cbn; split; congruence. Qed.

Lemma trim_nonempty (s : string) : Js.trim s <> "" -> s <> "".
Proof. intros H ->. now apply H. Qed.

Lemma getAppointments_conditions_true (filter : option GetAppointmentsFilter.t)
    (a : Appointment) :
  Sql.and_ (getAppointments_conditions filter) a = true
  <-> matches_filter filter a.
Proof.
  unfold matches_filter, Sql.and_. destruct filter as [f |].
  - cbn [getAppointments_conditions].
    rewrite !forallb_app, !andb_true_iff.
    rewrite (optional_condition _ Sql.eq_status).
    rewrite (optional_condition _ (Sql.gte preferred_date)).
    rewrite (optional_condition _ (Sql.lte preferred_date)).
    assert (Hs : forallb (fun c' : Sql.Condition => c' a)
                   match GetAppointmentsFilter.search f with
                   | Some s =>
                       if Js.truthy (Some s) && Js.truthy (Some (Js.trim s))
                       then [search_condition (Js.trim s)] else []
                   | None => []
                   end = true
                 <-> forall s, GetAppointmentsFilter.search f = Some s ->
                               Js.trim s <> "" ->
                               search_condition (Js.trim s) a = true).
    { destruct (GetAppointmentsFilter.search f) as [s |].
      - destruct (Js.truthy (Some (Js.trim s))) eqn:T.
        + assert (N := proj1 (truthy_nonempty _) T).
          rewrite (proj2 (truthy_nonempty s) (trim_nonempty s N)).
          cbn. rewrite andb_true_r.
          split; [intros H s' E _; now injection E as <- | auto].
        + rewrite andb_false_r. cbn. split; [| reflexivity].
          intros _ s' E N. injection E as <-.
          apply truthy_nonempty in N. congruence.
      - cbn. split; [discriminate | reflexivity]. }
    rewrite Hs. clear Hs.
    split.
    + intros (H1 & H2 & H3 & H4) f' E. injection E as <-.
      repeat split.
      * intros s Es. now apply eq_status_true, H1.
      * intros d Ed. apply Z.leb_le. exact (H2 d Ed).
      * intros d Ed. apply Z.leb_le. exact (H3 d Ed).
      * exact H4.
    + intros H. destruct (H f eq_refl) as (H1 & H2 & H3 & H4).
      repeat split.
      * intros s Es. now apply eq_status_true, H1.
      * intros d Ed. apply Z.leb_le. exact (H2 d Ed).
      * intros d Ed. apply Z.leb_le. exact (H3 d Ed).
      * exact H4.
  - cbn. split; [discriminate | reflexivity].
Qed.

(** C8, as amended.  [getAppointments] computes an answer the query admits,
    and every answer the query admits holds the rows of the table that meet
    all conditions of the filter, each once per occurrence in the table, in
    descending order of [created_at].  Nothing fixes the order among rows
    created at the same instant. *)
Theorem getAppointments_ordered :
  forall (table : list Appointment) (filter : option GetAppointmentsFilter.t),
    getAppointments_result table filter (getAppointments table filter)
    /\ forall result : list Appointment,
         getAppointments_result table filter result ->
         Permutation
           (List.filter (Sql.and_ (getAppointments_conditions filter)) table)
           result
         /\ (forall a, In a result <-> In a table /\ matches_filter filter a)
         /\ Sql.sorted_desc created_at result.
Proof.
  intros table filter. split.
  - split; [apply order_by_desc_Permutation | apply order_by_desc_sorted].
  - intros result [Hperm Hsorted].
    unfold getAppointments_rows in Hperm.
    rewrite select_conditions_filter in Hperm.
    split; [exact Hperm |]. split; [| exact Hsorted].
    intros a. rewrite <- getAppointments_conditions_true, <- filter_In.
    split; intros H.
    + eapply Permutation_in; [symmetry; exact Hperm | exact H].
    + eapply Permutation_in; [exact Hperm | exact H].
Qed.

Lemma getAppointments_ordered_witness :
  Permutation
    (List.filter (Sql.and_ (getAppointments_conditions None))
                 [twin_one; twin_two])
    (getAppointments [twin_one; twin_two] None)
  /\ (forall a, In a (getAppointments [twin_one; twin_two] None)
                <-> In a [twin_one; twin_two] /\ matches_filter None a)
  /\ Sql.sorted_desc created_at (getAppointments [twin_one; twin_two] None).
Proof.
  apply (proj2 (getAppointments_ordered [twin_one; twin_two] None)).
  apply (proj1 (getAppointments_ordered [twin_one; twin_two] None)).
Defined.

(** C8 as stated fails: for two rows created at the same instant the query
    admits both orders, so the order of equal timestamps is not determined
    by the state. *)
Lemma getAppointments_ties_undetermined :
  getAppointments_result [twin_one; twin_two] None [twin_one; twin_two]
  /\ getAppointments_result [twin_one; twin_two] None [twin_two; twin_one]
  /\ [twin_one; twin_two] <> [twin_two; twin_one].
Proof.
  split; [| split].
  - split; [reflexivity |].
    repeat constructor; cbn; lia.
  - split; [apply perm_swap |].
    repeat constructor; cbn; lia.
  - discriminate.
Qed.

(** ** The export against the list query *)

(** On such a filter the export renders the rows the list query returns,
    each as often, though not in its order. *)
Lemma export_rows_when_trimmed (table : list Appointment)
    (filter : option GetAppointmentsFilter.t) :
  search_is_trimmed filter ->
  Permutation (exportAppointmentsCSV_rows table filter)
              (getAppointments table filter).
Proof.
  intros Htrim. unfold getAppointments, exportAppointmentsCSV_rows.
  rewrite <- order_by_desc_Permutation. unfold getAppointments_rows.
  replace (exportAppointmentsCSV_conditions filter)
    with (getAppointments_conditions filter); [reflexivity |].
  unfold exportAppointmentsCSV_conditions, getAppointments_conditions.
  destruct filter as [f |]; [| reflexivity]. cbn [option_map].
  destruct (GetAppointmentsFilter.status f),
    (GetAppointmentsFilter.startDate f), (GetAppointmentsFilter.endDate f);
    cbn [app]; repeat f_equal;
    (destruct (GetAppointmentsFilter.search f) as [s |] eqn:E;
     [| reflexivity]);
    rewrite (Htrim f s eq_refl E);
    destruct (Js.truthy (Some s)); reflexivity.
Qed.

(** C3, the behaviour of the code.  The export does not trim the search
    term and does not order its rows.  With two bookings in the table: for
    a search of two blanks the list query returns both and the export
    renders none, its output being the header alone; for a search padded
    with blanks the list query finds the booking and the export does not;
    and without a filter the list query returns the newer booking first
    while the export renders the older one first. *)
Theorem export_differs_from_getAppointments :
  (getAppointments bookings (Some blank_search)
   = [second_booking; first_booking]
   /\ exportAppointmentsCSV_rows bookings (Some blank_search) = []
   /\ forall number_toString,
        exportAppointmentsCSV number_toString bookings (Some blank_search)
        = header_line)
  /\ (getAppointments bookings (Some padded_search) = [first_booking]
      /\ exportAppointmentsCSV_rows bookings (Some padded_search) = [])
  /\ (getAppointments bookings None = [second_booking; first_booking]
      /\ exportAppointmentsCSV_rows bookings None
         = [first_booking; second_booking]
      /\ forall number_toString,
           exportAppointmentsCSV number_toString bookings None
           = Js.join (String Js.LF "")
               [header_line;
                Js.join "," (csv_row number_toString first_booking);
                Js.join "," (csv_row number_toString second_booking)]).
Proof.
  split; [split; [| split] | split; [split | split; [| split]]].
  - vm_compute. reflexivity.
  - vm_compute. reflexivity.
  - intros number_toString. reflexivity.
  - vm_compute. reflexivity.
  - vm_compute. reflexivity.
  - vm_compute. reflexivity.
  - vm_compute. reflexivity.
  - intros number_toString. reflexivity.
Qed.

(** * Further properties of the handlers *)

(** ** Acceptance at intake *)

Lemma field_issues_nil (is_email : string -> bool)
    (input : CreateAppointmentInput.t) :
  aborted input = false ->
  (field_issues is_email input = []
   <-> CreateAppointmentInput.name input <> ""
       /\ (forall e, CreateAppointmentInput.email input = Some e ->
                     is_email e = true)
       /\ CreateAppointmentInput.tests input <> []).
Proof.
  unfold aborted, field_issues, number_issues.
  destruct (CreateAppointmentInput.lat input) as [x |];
    [destruct (z_number x) |];
    (destruct (CreateAppointmentInput.lng input) as [y |];
     [destruct (z_number y) |]);
    try discriminate; intros _; cbn [app]; rewrite ?app_nil_r;
    (destruct (CreateAppointmentInput.name input);
     destruct (CreateAppointmentInput.tests input);
     (destruct (CreateAppointmentInput.email input) as [e |];
      [destruct (is_email e) eqn:E |]);
     cbn;
     (split;
      [intros H; try discriminate H; repeat split; try discriminate;
       intros e0 [= <-]; exact E
      | intros (Hn & He & Ht); try congruence;
        try (specialize (He _ eq_refl); congruence)])).
Qed.

Lemma refine_issues_nil (tz : Z) (now : Date)
    (input : CreateAppointmentInput.t) :
  refine_issues tz now input = []
  <-> (CreateAppointmentInput.phone input <> None
       \/ CreateAppointmentInput.email input <> None)
      /\ setHours0 tz now <= CreateAppointmentInput.preferred_date input
      /\ ((CreateAppointmentInput.lat input <> None
           /\ CreateAppointmentInput.lng input <> None)
          \/ (CreateAppointmentInput.address_street input <> None
              /\ CreateAppointmentInput.address_locality input <> None
              /\ CreateAppointmentInput.address_city input <> None)).
Proof.
  unfold refine_issues. cbv zeta.
  destruct (Z.leb_spec (setHours0 tz now)
                       (CreateAppointmentInput.preferred_date input))
    as [Hd | Hd];
    destruct (CreateAppointmentInput.phone input),
      (CreateAppointmentInput.email input),
      (CreateAppointmentInput.lat input),
      (CreateAppointmentInput.lng input),
      (CreateAppointmentInput.address_street input),
      (CreateAppointmentInput.address_locality input),
      (CreateAppointmentInput.address_city input); cbn;
    (split; [intros H; try discriminate H | intros H; try reflexivity]);
    try (intuition (congruence || lia || discriminate)).
Qed.

Lemma schema_accepts (is_email : string -> bool) (tz : Z) (now : Date)
    (input : CreateAppointmentInput.t) :
  createAppointmentInputSchema is_email tz now input = []
  <-> valid_input is_email tz now input.
Proof.
  unfold createAppointmentInputSchema, valid_input.
  destruct (aborted input) eqn:A.
  - split.
    + intros H. destruct (aborted_nan_issue is_email input A) as [Hn | Hn];
        rewrite H in Hn; destruct Hn.
    + intros (_ & _ & _ & _ & _ & _ & Hn). apply aborted_false in Hn.
      congruence.
  - pose proof (proj1 (aborted_false input) A) as Hn.
    pose proof (field_issues_nil is_email input A) as Hf.
    split.
    + intros H. apply app_eq_nil in H. destruct H as [H1 H2].
      apply Hf in H1. pose proof (proj1 (refine_issues_nil tz now input) H2).
      tauto.
    + intros (H1 & H2 & H3 & H4 & H5 & H6 & _).
      assert (E1 : field_issues is_email input = []) by (apply Hf; tauto).
      assert (E2 : refine_issues tz now input = [])
        by (apply refine_issues_nil; tauto).
      now rewrite E1, E2.
Qed.

(** The row a successful insert answers, and the database it leaves. *)
Lemma real_value_null (real : RealColumn) (v v' : option JsNumber) :
  real_value real v = Some v' -> (v' = None <-> v = None).
Proof.
  destruct v as [x |]; cbn.
  - destruct (real x); cbn; [| discriminate].
    intros [= <-]. split; discriminate.
  - intros [= <-]. tauto.
Qed.

Lemma createAppointment_row (real : RealColumn) (now : Date) (d : Database)
    (input : CreateAppointmentInput.t) (a : Appointment) (d' : Database) :
  createAppointment real now d input = Some (a, d') ->
  d' = {| appointmentsTable := (appointmentsTable d ++ [a])%list;
          appointments_id_seq := appointments_id_seq d + 1 |}
  /\ a = fst (insert_returning now d input
                (existsb (fun test => Array_includes fastingTests test)
                         (CreateAppointmentInput.tests input))
                (lat a) (lng a))
  /\ real_value real (CreateAppointmentInput.lat input) = Some (lat a)
  /\ real_value real (CreateAppointmentInput.lng input) = Some (lng a).
Proof.
  intros E. apply createAppointment_Some in E.
  destruct E as (lat' & lng' & E1 & E2 & E).
  apply (f_equal fst) in E as Ea. apply (f_equal snd) in E as Ed.
  cbn [fst snd] in Ea, Ed. subst a d'.
  repeat split; assumption.
Qed.


(** ** What every call keeps *)

Lemma createAppointment_world (is_email : string -> bool)
    (real : RealColumn) (tz : Z) (now : Date) (w : World)
    (input : CreateAppointmentInput.t) :
  (exists a d',
      valid_input is_email tz now input
      /\ createAppointment real now (db w) input = Some (a, d')
      /\ snd (Router.createAppointment is_email real tz now w input)
         = {| db := d'; outbox := outbox w |})
  \/ snd (Router.createAppointment is_email real tz now w input) = w.
Proof.
  unfold Router.createAppointment.
  destruct (createAppointmentInputSchema is_email tz now input) eqn:E.
  - destruct (createAppointment real now (db w) input) as [[a d'] |] eqn:E';
      [| right; reflexivity].
    left. exists a, d'. split; [now apply schema_accepts |].
    split; reflexivity.
  - right. reflexivity.
Qed.

Lemma updateAppointmentStatus_world (now : Date) (w : World)
    (input : UpdateAppointmentStatusInput.t) :
  exists (c : Sql.Condition) (v : UpdateValues),
    set_last_reminder_sent_at v = None
    /\ snd (AppRouter.updateAppointmentStatus now w input)
       = {| db := {| appointmentsTable :=
                       map (fun r => if c r then apply_set v r else r)
                           (appointmentsTable (db w));
                     appointments_id_seq := appointments_id_seq (db w) |};
            outbox := outbox w |}.
Proof.
  eexists. eexists. split; [| reflexivity]. reflexivity.
Qed.

Lemma sendNextDayReminders_world (transport : Transport) (tz : Z)
    (now : Date) (w : World) :
  snd (AppRouter.sendNextDayReminders transport tz now w)
  = {| db := {| appointmentsTable :=
                  mark_rows transport now
                    (reminder_candidates tz now (appointmentsTable (db w)))
                    (appointmentsTable (db w));
                appointments_id_seq := appointments_id_seq (db w) |};
       outbox := (outbox w
                  ++ flat_map reminder_attempts
                       (reminder_candidates tz now
                          (appointmentsTable (db w))))%list |}.
Proof.
  unfold AppRouter.sendNextDayReminders, sendNextDayReminders.
  rewrite reminder_loop. reflexivity.
Qed.

Lemma patched_columns (c : Sql.Condition) (v : UpdateValues)
    (table : list Appointment) :
  map intake_columns (map (fun r => if c r then apply_set v r else r) table)
  = map intake_columns table.
Proof.
  rewrite map_map. apply map_ext. intros r. now destruct (c r).
Qed.

Lemma columns_id (l l' : list Appointment) :
  map intake_columns l = map intake_columns l' -> map id l = map id l'.
Proof.
  revert l'. induction l as [| r l IH]; intros [| r' l'] H;
    try discriminate; [reflexivity |].
  cbn in H. injection H as Hid _ _ _ _ _ _ _ _ _ _ _ _ _ _ _ _ _ Hl.
  cbn. f_equal; [exact Hid | now apply IH].
Qed.

Lemma row_valid_columns (is_email : string -> bool) (r r' : Appointment) :
  intake_columns r = intake_columns r' ->
  row_valid is_email r -> row_valid is_email r'.
Proof.
  unfold intake_columns, row_valid. destruct r, r'. cbn. intros H.
  injection H; intros; subst. assumption.
Qed.

Lemma keys_valid_same_ids (table table' : list Appointment) (seq : Z) :
  map id table' = map id table ->
  keys_valid {| appointmentsTable := table; appointments_id_seq := seq |} ->
  keys_valid {| appointmentsTable := table'; appointments_id_seq := seq |}.
Proof.
  unfold keys_valid. cbn. intros E (H1 & H2 & H3).
  split; [exact H1 |]. rewrite E. split; [exact H2 |].
  apply Forall_map with (f := id) (P := fun i => 1 <= i < seq).
  rewrite E. now apply Forall_map.
Qed.

Lemma keys_valid_insert (real : RealColumn) (now : Date) (d : Database)
    (input : CreateAppointmentInput.t) (a : Appointment) (d' : Database) :
  createAppointment real now d input = Some (a, d') ->
  keys_valid d -> keys_valid d'.
Proof.
  intros E. apply createAppointment_row in E. destruct E as (-> & Ha & _).
  apply (f_equal id) in Ha. cbn in Ha.
  unfold keys_valid. cbn. intros (H1 & H2 & H3).
  split; [lia |]. split.
  - rewrite map_app. cbn.
    eapply Permutation_NoDup; [apply Permutation_cons_append |].
    constructor; [| exact H2].
    rewrite Forall_forall in H3. intros Hin.
    apply in_map_iff in Hin. destruct Hin as (r & E & Hr).
    specialize (H3 r Hr). lia.
  - apply Forall_app. split.
    + eapply Forall_impl; [| exact H3]. cbn. intros; lia.
    + constructor; [lia | constructor].
Qed.

Lemma mark_rows_columns (transport : Transport) (now : Date)
    (l table : list Appointment) :
  map intake_columns (mark_rows transport now l table)
  = map intake_columns table.
Proof.
  unfold mark_rows.
  apply (patched_columns
           (fun r => existsb (fun a => (id r =? id a)
                                       && reminder_delivered transport a) l)
           (reminded now)).
Qed.


Lemma step_keys_valid (is_email : string -> bool) (real : RealColumn)
    (w w' : World) :
  step is_email real w w' -> keys_valid (db w) -> keys_valid (db w').
Proof.
  intros [tz now w0 input | now w0 input | transport tz now w0] H.
  - destruct (createAppointment_world is_email real tz now w0 input)
      as [(a & d' & _ & Ec & E) | E]; rewrite E; [| exact H].
    exact (keys_valid_insert real now (db w0) input a d' Ec H).
  - destruct (updateAppointmentStatus_world now w0 input) as (c & v & _ & E).
    rewrite E. cbn [db]. destruct w0 as [[table seq] box].
    apply keys_valid_same_ids with (table := table); [| exact H].
    apply columns_id, patched_columns.
  - rewrite sendNextDayReminders_world. cbn [db].
    destruct w0 as [[table seq] box].
    apply keys_valid_same_ids with (table := table); [| exact H].
    apply columns_id, mark_rows_columns.
Qed.

(** X3. In every state the service can reach, the ids of the table are
    distinct, positive and below the next value of the sequence: no id is
    ever reused. *)
Theorem reachable_keys_valid :
  forall (is_email : string -> bool) (real : RealColumn) (w : World),
    reachable is_email real w -> keys_valid (db w).
Proof.
  intros is_email real w H. induction H as [| w w' _ IH Hs].
  - unfold keys_valid. cbn. split; [lia |]. split; constructor.
  - eapply step_keys_valid; eassumption.
Qed.

Lemma columns_row_valid (is_email : string -> bool)
    (l l' : list Appointment) :
  map intake_columns l' = map intake_columns l ->
  Forall (row_valid is_email) l -> Forall (row_valid is_email) l'.
Proof.
  revert l'. induction l as [| r l IH]; intros [| r' l'] E H;
    try discriminate; constructor.
  - cbn in E. apply Forall_inv in H.
    eapply row_valid_columns; [| exact H]. congruence.
  - cbn in E. apply Forall_inv_tail in H. apply IH; [congruence | exact H].
Qed.

Lemma createAppointment_row_valid (is_email : string -> bool)
    (real : RealColumn) (tz : Z) (now : Date) (d : Database)
    (input : CreateAppointmentInput.t) (a : Appointment) (d' : Database) :
  valid_input is_email tz now input ->
  createAppointment real now d input = Some (a, d') ->
  row_valid is_email a.
Proof.
  intros Hv E. apply createAppointment_row in E.
  destruct E as (_ & Ha & Hlat & Hlng).
  apply real_value_null in Hlat, Hlng.
  unfold valid_input in Hv. unfold row_valid. rewrite Ha. cbn.
  intuition.
Qed.

Lemma step_rows_valid (is_email : string -> bool) (real : RealColumn)
    (w w' : World) :
  step is_email real w w' ->
  Forall (row_valid is_email) (appointmentsTable (db w)) ->
  Forall (row_valid is_email) (appointmentsTable (db w')).
Proof.
  intros [tz now w0 input | now w0 input | transport tz now w0] H.
  - destruct (createAppointment_world is_email real tz now w0 input)
      as [(a & d' & Hv & Ec & E) | E]; rewrite E; [| exact H].
    pose proof (createAppointment_row_valid is_email real tz now (db w0)
                  input a d' Hv Ec) as Hr.
    apply createAppointment_row in Ec. destruct Ec as (-> & _).
    cbn [db appointmentsTable].
    apply Forall_app. split; [exact H |].
    constructor; [exact Hr | constructor].
  - destruct (updateAppointmentStatus_world now w0 input) as (c & v & _ & E).
    rewrite E. cbn [db appointmentsTable].
    eapply columns_row_valid; [apply patched_columns | exact H].
  - rewrite sendNextDayReminders_world. cbn [db appointmentsTable].
    eapply columns_row_valid; [apply mark_rows_columns | exact H].
Qed.

(** X4. In every state the service can reach, every stored appointment has
    what intake checked: a name, a well-formed e-mail if any, at least one
    test, a phone or an e-mail, both coordinates or street, locality and
    city, and a fasting flag that is set exactly when one of its tests is
    a fasting test.  Status updates and reminders never break this. *)
Theorem reachable_rows_valid :
  forall (is_email : string -> bool) (real : RealColumn) (w : World),
    reachable is_email real w ->
    Forall (row_valid is_email) (appointmentsTable (db w)).
Proof.
  intros is_email real w H. induction H as [| w w' _ IH Hs].
  - constructor.
  - eapply step_rows_valid; eassumption.
Qed.

Lemma reminder_delivered_attempted (transport : Transport) (a : Appointment) :
  reminder_delivered transport a = true ->
  reminder_attempted (reminder_attempts a) (id a).
Proof.
  unfold reminder_delivered, reminder_attempts, reminder_attempted, attempt.
  intros H. apply orb_true_iff in H.
  destruct H as [H | H]; apply andb_true_iff in H; destruct H as [H _];
    rewrite H.
  - exists CustomerReminderEmail. split; [now left | now left].
  - exists CustomerReminderWhatsApp. split; [| now right].
    apply in_or_app. right. now left.
Qed.

Lemma reminder_attempted_app (box more : list Attempt) (key : Z) :
  reminder_attempted box key \/ reminder_attempted more key ->
  reminder_attempted (box ++ more) key.
Proof.
  unfold reminder_attempted.
  intros [(ch & H & Hc) | (ch & H & Hc)]; exists ch;
    (split; [apply in_or_app; tauto | exact Hc]).
Qed.

Lemma Forall_patched (P Q : Appointment -> Prop)
    (patch : Appointment -> Appointment) (table : list Appointment) :
  (forall r, In r table -> P r -> Q (patch r)) ->
  Forall P table -> Forall Q (map patch table).
Proof.
  induction table as [| r table IH]; intros Hp H; [constructor |].
  cbn. constructor.
  - apply Hp; [now left | now apply Forall_inv in H].
  - apply IH; [intros x Hx; apply Hp; now right |].
    now apply Forall_inv_tail in H.
Qed.

Lemma step_reminders_attempted (is_email : string -> bool)
    (real : RealColumn) (w w' : World) :
  step is_email real w w' ->
  Forall (fun r => last_reminder_sent_at r <> None ->
                   reminder_attempted (outbox w) (id r))
         (appointmentsTable (db w)) ->
  Forall (fun r => last_reminder_sent_at r <> None ->
                   reminder_attempted (outbox w') (id r))
         (appointmentsTable (db w')).
Proof.
  intros [tz now w0 input | now w0 input | transport tz now w0] H.
  - destruct (createAppointment_world is_email real tz now w0 input)
      as [(a & d' & Hv & Ec & E) | E]; rewrite E; [| exact H].
    apply createAppointment_row in Ec. destruct Ec as (-> & Ha & _).
    cbn [db appointmentsTable outbox].
    apply Forall_app. split; [exact H |].
    constructor; [| constructor]. rewrite Ha. cbn. congruence.
  - destruct (updateAppointmentStatus_world now w0 input) as (c & v & Hv & E).
    rewrite E. cbn [db appointmentsTable outbox].
    eapply Forall_patched; [| exact H].
    intros r _ Hr. cbn beta in Hr |- *. destruct (c r); [| exact Hr].
    cbn. rewrite Hv. exact Hr.
  - rewrite sendNextDayReminders_world. cbn [db appointmentsTable outbox].
    unfold mark_rows.
    eapply Forall_patched; [| exact H].
    + intros r _ Hr. cbn beta in Hr |- *.
      destruct (existsb _ _) eqn:E.
      * intros _. cbn [id apply_set]. apply reminder_attempted_app. right.
        apply existsb_exists in E. destruct E as (a & Ha & E).
        apply andb_true_iff in E. destruct E as [Eid D].
        apply Z.eqb_eq in Eid. rewrite Eid.
        destruct (reminder_delivered_attempted transport a D)
          as (ch & Hin & Hch).
        exists ch. split; [| exact Hch].
        apply in_flat_map. exists a. split; assumption.
      * intros Hl. apply reminder_attempted_app. left. now apply Hr.
Qed.

(** X5. In every state the service can reach, a row carries a
    [last_reminder_sent_at] only if a reminder call for its id is in the
    outbox: the timestamp is written by the reminder job alone, and only
    after a call was made. *)
Theorem reachable_reminders_attempted :
  forall (is_email : string -> bool) (real : RealColumn) (w : World),
    reachable is_email real w ->
    Forall (fun r => last_reminder_sent_at r <> None ->
                     reminder_attempted (outbox w) (id r))
           (appointmentsTable (db w)).
Proof.
  intros is_email real w H. induction H as [| w w' _ IH Hs].
  - constructor.
  - eapply step_reminders_attempted; eassumption.
Qed.

(** ** The detail query *)

Lemma getAppointmentById_app (l l' : list Appointment) (key : Z) :
  getAppointmentById (l ++ l') key
  = match getAppointmentById l key with
    | Some r => Some r
    | None => getAppointmentById l' key
    end.
Proof.
  unfold getAppointmentById, Sql.select_where. rewrite filter_app.
  destruct (filter (Sql.eq_id key) l); reflexivity.
Qed.

Lemma getAppointmentById_None (table : list Appointment) (key : Z) :
  getAppointmentById table key = None
  <-> forall r, In r table -> id r <> key.
Proof.
  unfold getAppointmentById, Sql.select_where, Sql.eq_id.
  induction table as [| x table IH]; cbn.
  - split; [intros _ r [] | reflexivity].
  - destruct (Z.eqb_spec (id x) key) as [E | E].
    + split; [discriminate |]. intros H. elim (H x); [now left | exact E].
    + rewrite IH. split.
      * intros H r [<- | Hr]; [exact E | now apply H].
      * intros H r Hr. apply H. now right.
Qed.

Lemma getAppointmentById_Some (table : list Appointment) (key : Z)
    (r : Appointment) :
  getAppointmentById table key = Some r -> In r table /\ id r = key.
Proof.
  unfold getAppointmentById, Sql.select_where.
  destruct (filter (Sql.eq_id key) table) as [| x rest] eqn:E;
    [discriminate |].
  intros H. injection H as <-.
  assert (Hin : In x (filter (Sql.eq_id key) table))
    by (rewrite E; now left).
  apply filter_In in Hin. destruct Hin as [Hin Hid].
  split; [exact Hin | now apply Z.eqb_eq in Hid].
Qed.

(** X6. The detail query answers null exactly for an id no row carries, and
    otherwise a stored row of that id; in a table with distinct ids it
    finds every stored row by its id. *)
Theorem getAppointmentById_lookup :
  forall (table : list Appointment) (key : Z),
    (getAppointmentById table key = None
     <-> forall r, In r table -> id r <> key)
    /\ (forall r, getAppointmentById table key = Some r ->
                  In r table /\ id r = key)
    /\ (NoDup (map id table) ->
        forall r, In r table -> getAppointmentById table (id r) = Some r).
Proof.
  intros table key. split; [apply getAppointmentById_None |].
  split; [apply getAppointmentById_Some |].
  intros Hnd r Hr.
  destruct (getAppointmentById table (id r)) as [x |] eqn:E.
  - apply getAppointmentById_Some in E. destruct E as [Hx Hid].
    f_equal. eapply In_same_id; eassumption.
  - exfalso.
    exact (proj1 (getAppointmentById_None table (id r)) E r Hr eq_refl).
Qed.

Lemma getAppointmentById_single (a : Appointment) (key : Z) :
  getAppointmentById [a] key = if id a =? key then Some a else None.
Proof.
  unfold getAppointmentById, Sql.select_where, Sql.eq_id. cbn [filter].
  now destruct (id a =? key).
Qed.

Lemma createAppointment_Ok (is_email : string -> bool) (real : RealColumn)
    (tz : Z) (now : Date) (w : World) (input : CreateAppointmentInput.t)
    (response : AppointmentCreatedResponse.t) (w' : World) :
  Router.createAppointment is_email real tz now w input
  = (Router.Ok response, w') ->
  valid_input is_email tz now input
  /\ createAppointment real now (db w) input
     = Some (AppointmentCreatedResponse.appointment response, db w')
  /\ outbox w' = outbox w.
Proof.
  unfold Router.createAppointment.
  destruct (createAppointmentInputSchema is_email tz now input) eqn:Es;
    [| discriminate].
  destruct (createAppointment real now (db w) input) as [[a d'] |];
    [| discriminate].
  intros [= <- <-]. split; [now apply schema_accepts |].
  split; reflexivity.
Qed.

Lemma real_value_keeps (real : RealColumn) (v v' : option JsNumber) :
  real_value real v = Some v' -> keeps real v -> v' = v.
Proof.
  unfold keeps. destruct v as [x |]; cbn.
  - intros E H. rewrite (H x eq_refl) in E. cbn in E. congruence.
  - congruence.
Qed.

(** X7. Get after create.  In a database whose ids were drawn from its
    sequence, an intake the procedure accepts is found by the detail query
    under the id it was given, as the row that was answered.  That row
    holds every field of the input as it was given, the coordinates apart,
    which it holds as their columns read them back; where the columns keep
    both coordinates as written, the row holds the whole input.  No row had
    that id before, and the query of any other id answers as before. *)
Theorem getAppointmentById_after_create :
  forall (is_email : string -> bool) (real : RealColumn) (tz : Z)
         (now : Date) (w : World) (input : CreateAppointmentInput.t)
         (response : AppointmentCreatedResponse.t) (w' : World),
    keys_valid (db w) ->
    Router.createAppointment is_email real tz now w input
    = (Router.Ok response, w') ->
    let appointment := AppointmentCreatedResponse.appointment response in
    AppRouter.getAppointmentById w' (id appointment) = Some appointment
    /\ intake_of appointment (notes appointment)
       = with_coordinates input (lat appointment) (lng appointment)
    /\ real_value real (CreateAppointmentInput.lat input)
       = Some (lat appointment)
    /\ real_value real (CreateAppointmentInput.lng input)
       = Some (lng appointment)
    /\ (keeps real (CreateAppointmentInput.lat input) ->
        keeps real (CreateAppointmentInput.lng input) ->
        intake_of appointment (notes appointment) = input)
    /\ AppRouter.getAppointmentById w (id appointment) = None
    /\ forall key, key <> id appointment ->
                   AppRouter.getAppointmentById w' key
                   = AppRouter.getAppointmentById w key.
Proof.
  intros is_email real tz now w input response w' (Hseq & Hnd & Hids) E
         appointment.
  apply createAppointment_Ok in E. destruct E as (_ & E & _).
  fold appointment in E. apply createAppointment_row in E.
  destruct E as (Ed & Ha & Hlat & Hlng).
  assert (Hid : id appointment = appointments_id_seq (db w))
    by (rewrite Ha; reflexivity).
  assert (Hnone : getAppointmentById (appointmentsTable (db w))
                                     (id appointment) = None).
  { apply getAppointmentById_None. intros r Hr.
    rewrite Forall_forall in Hids. specialize (Hids r Hr). lia. }
  assert (Hrow : intake_of appointment (notes appointment)
                 = with_coordinates input (lat appointment)
                                    (lng appointment))
    by (rewrite Ha at 1 2; reflexivity).
  unfold AppRouter.getAppointmentById. rewrite Ed.
  cbn [appointmentsTable].
  split; [| split; [| split; [| split; [| split; [| split]]]]].
  - rewrite getAppointmentById_app, Hnone, getAppointmentById_single.
    now rewrite Z.eqb_refl.
  - exact Hrow.
  - exact Hlat.
  - exact Hlng.
  - intros K1 K2. rewrite Hrow.
    rewrite (real_value_keeps real _ _ Hlat K1).
    rewrite (real_value_keeps real _ _ Hlng K2).
    destruct input. reflexivity.
  - exact Hnone.
  - intros key Hk. rewrite getAppointmentById_app.
    destruct (getAppointmentById (appointmentsTable (db w)) key);
      [reflexivity |].
    rewrite getAppointmentById_single.
    destruct (Z.eqb_spec (id appointment) key); [congruence | reflexivity].
Qed.

Lemma getAppointmentById_patched (c : Sql.Condition) (v : UpdateValues)
    (table : list Appointment) (key : Z) :
  getAppointmentById (map (fun r => if c r then apply_set v r else r) table)
                     key
  = option_map (fun r => if c r then apply_set v r else r)
               (getAppointmentById table key).
Proof.
  unfold getAppointmentById, Sql.select_where, Sql.eq_id.
  induction table as [| r table IH]; [reflexivity |].
  cbn [map filter].
  replace (id (if c r then apply_set v r else r)) with (id r)
    by (now destruct (c r)).
  destruct (id r =? key); [reflexivity | exact IH].
Qed.

(** X8. Get after update.  After a status update the detail query of the
    updated id answers what the update answered (the updated row, or null
    when no row has the id), and the query of any other id answers as
    before the update. *)
Theorem getAppointmentById_after_update :
  forall (now : Date) (d : Database) (input : UpdateAppointmentStatusInput.t),
    let d' := snd (updateAppointmentStatus now d input) in
    getAppointmentById (appointmentsTable d')
                       (UpdateAppointmentStatusInput.id input)
    = fst (updateAppointmentStatus now d input)
    /\ forall key, key <> UpdateAppointmentStatusInput.id input ->
                   getAppointmentById (appointmentsTable d') key
                   = getAppointmentById (appointmentsTable d) key.
Proof.
  intros now d input. cbn zeta.
  unfold updateAppointmentStatus, Sql.update_where.
  cbn [fst snd appointmentsTable].
  set (v := {| set_status := _ |}).
  set (target := UpdateAppointmentStatusInput.id input).
  split.
  - rewrite getAppointmentById_patched.
    unfold getAppointmentById, Sql.select_where.
    destruct (filter (Sql.eq_id target) (appointmentsTable d))
      as [| r rest] eqn:E; [reflexivity |].
    cbn [map option_map].
    assert (Hin : In r (filter (Sql.eq_id target) (appointmentsTable d)))
      by (rewrite E; now left).
    apply filter_In in Hin. destruct Hin as [_ Hc]. now rewrite Hc.
  - intros key Hk. rewrite getAppointmentById_patched.
    destruct (getAppointmentById (appointmentsTable d) key) as [r |] eqn:E;
      [| reflexivity].
    apply getAppointmentById_Some in E. destruct E as [_ Hid].
    cbn [option_map]. unfold Sql.eq_id.
    destruct (Z.eqb_spec (id r) target); [congruence | reflexivity].
Qed.

Lemma apply_set_twice (v1 v2 : UpdateValues) (r : Appointment) :
  apply_set v2 (apply_set v1 r) = apply_set (merge_set v1 v2) r.
Proof.
  destruct v1 as [s1 n1 u1 l1], v2 as [s2 n2 u2 l2]. unfold apply_set. cbn.
  destruct s2, n2, u2, l2; reflexivity.
Qed.

Lemma eq_id_apply_set (target : Z) (v : UpdateValues) (r : Appointment) :
  Sql.eq_id target (apply_set v r) = Sql.eq_id target r.
Proof. reflexivity. Qed.

Lemma update_where_twice (target : Z) (v1 v2 : UpdateValues)
    (table : list Appointment) :
  Sql.update_where (Sql.eq_id target) v2
    (fst (Sql.update_where (Sql.eq_id target) v1 table))
  = Sql.update_where (Sql.eq_id target) (merge_set v1 v2) table.
Proof.
  unfold Sql.update_where. cbn [fst]. f_equal.
  - rewrite map_map. apply map_ext. intros r.
    destruct (Sql.eq_id target r) eqn:E.
    + now rewrite eq_id_apply_set, E, apply_set_twice.
    + now rewrite E.
  - induction table as [| r table IH]; [reflexivity |].
    cbn [map filter]. destruct (Sql.eq_id target r) eqn:E.
    + rewrite eq_id_apply_set, E. cbn [map].
      now rewrite apply_set_twice, IH.
    + rewrite E. exact IH.
Qed.

(** X9. Two status updates of the same id in a row leave the database, and
    answer, as the second alone would with the notes it leaves behind: its
    own notes if it has any (null included), else the notes of the first.
    The later status always wins; no update depends on the status it
    replaces. *)
Theorem updateAppointmentStatus_twice :
  forall (now1 now2 : Date) (d : Database)
         (first second : UpdateAppointmentStatusInput.t),
    UpdateAppointmentStatusInput.id first
    = UpdateAppointmentStatusInput.id second ->
    updateAppointmentStatus now2 (snd (updateAppointmentStatus now1 d first))
                            second
    = updateAppointmentStatus now2 d (update_after first second).
Proof.
  intros now1 now2 d first second Hid.
  unfold updateAppointmentStatus at 1 3.
  assert (E : appointmentsTable (snd (updateAppointmentStatus now1 d first))
              = fst (Sql.update_where
                       (Sql.eq_id (UpdateAppointmentStatusInput.id second))
                       {| set_status :=
                            Some (UpdateAppointmentStatusInput.status first);
                          set_notes := UpdateAppointmentStatusInput.notes first;
                          set_updated_at := Some now1;
                          set_last_reminder_sent_at := None |}
                       (appointmentsTable d))).
  { rewrite <- Hid. reflexivity. }
  rewrite E, update_where_twice. reflexivity.
Qed.

(** ** Reminders across calls *)

Lemma sendNextDayReminders_table (transport : Transport) (tz : Z)
    (now : Date) (w : World) :
  appointmentsTable (db (snd (sendNextDayReminders transport tz now w)))
  = mark_rows transport now
      (reminder_candidates tz now (appointmentsTable (db w)))
      (appointmentsTable (db w)).
Proof. unfold sendNextDayReminders. rewrite reminder_loop. reflexivity. Qed.

Lemma reminded_not_due (tz : Z) (now now' : Date) (r : Appointment) :
  now' - now < MS_PER_DAY ->
  reminder_condition tz now' (apply_set (reminded now) r) = false.
Proof.
  intros H.
  destruct (reminder_condition tz now' (apply_set (reminded now) r)) eqn:E;
    [| reflexivity].
  apply reminder_condition_true in E.
  destruct E as (_ & _ & [E | (t & E & Ht)]); cbn in E; [discriminate |].
  injection E as <-. lia.
Qed.

(** X10. A reminder is not repeated within 24 hours.  After a run of the
    reminder job over a table with distinct ids, a run less than 24 hours
    later, in whatever zone, selects only rows the first run left as they
    were, and none for which the first run had a reminder delivered. *)
Theorem reminders_not_repeated :
  forall (transport : Transport) (tz : Z) (now : Date) (w : World)
         (tz' : Z) (now' : Date),
    NoDup (map id (appointmentsTable (db w))) ->
    now' - now < MS_PER_DAY ->
    forall r,
      In r (reminder_candidates tz' now'
              (appointmentsTable
                 (db (snd (sendNextDayReminders transport tz now w))))) ->
      In r (appointmentsTable (db w))
      /\ reminder_condition tz now r && reminder_delivered transport r
         = false.
Proof.
  intros transport tz now w tz' now' Hnd Hlt r Hr.
  rewrite sendNextDayReminders_table in Hr.
  unfold reminder_candidates at 1, Sql.select_where in Hr.
  apply filter_In in Hr. destruct Hr as [Hin Hc].
  unfold mark_rows in Hin. apply in_map_iff in Hin.
  destruct Hin as (r0 & E & Hr0).
  rewrite (marked_by_id transport tz now _ r0 Hnd Hr0) in E.
  destruct (reminder_condition tz now r0 && reminder_delivered transport r0)
    eqn:M; subst r.
  - now rewrite reminded_not_due in Hc.
  - split; assumption.
Qed.

Lemma getAppointmentById_created (real : RealColumn) (now : Date)
    (d : Database) (input : CreateAppointmentInput.t) (a : Appointment)
    (d' : Database) :
  keys_valid d ->
  createAppointment real now d input = Some (a, d') ->
  id a = appointments_id_seq d
  /\ getAppointmentById (appointmentsTable d') (id a) = Some a.
Proof.
  intros (_ & _ & Hids) E. apply createAppointment_row in E.
  destruct E as (-> & Ha & _).
  assert (Hid : id a = appointments_id_seq d) by (rewrite Ha; reflexivity).
  split; [exact Hid |]. cbn [appointmentsTable].
  rewrite getAppointmentById_app.
  replace (getAppointmentById (appointmentsTable d) (id a))
    with (@None Appointment).
  - rewrite getAppointmentById_single. now rewrite Z.eqb_refl.
  - symmetry. apply getAppointmentById_None. intros r Hr.
    rewrite Forall_forall in Hids. specialize (Hids r Hr). lia.
Qed.

(** X11. From intake to reminder.  An appointment created with a preferred
    date on the local day after a run of the reminder job is selected by
    that run; if one of its channels delivers, the detail query then shows
    it with [last_reminder_sent_at] and [updated_at] at the time of the run
    and every other column as created. *)
Theorem created_appointment_is_reminded :
  forall (transport : Transport) (real : RealColumn) (now : Date)
         (d : Database) (input : CreateAppointmentInput.t)
         (appointment : Appointment) (d1 : Database) (box : list Attempt)
         (tz : Z) (now' : Date),
    keys_valid d ->
    createAppointment real now d input = Some (appointment, d1) ->
    tomorrow tz now' <= CreateAppointmentInput.preferred_date input
    < dayAfterTomorrow tz now' ->
    let w1 := {| db := d1; outbox := box |} in
    In appointment
       (reminder_candidates tz now' (appointmentsTable (db w1)))
    /\ (reminder_delivered transport appointment = true ->
        getAppointmentById
          (appointmentsTable
             (db (snd (sendNextDayReminders transport tz now' w1))))
          (id appointment)
        = Some (apply_set (reminded now') appointment)
        /\ last_reminder_sent_at (apply_set (reminded now') appointment)
           = Some now'
        /\ updated_at (apply_set (reminded now') appointment) = now').
Proof.
  intros transport real now d input appointment d1 box tz now' Hk E Hw w1.
  destruct (getAppointmentById_created real now d input appointment d1 Hk E)
    as [Hid Hget].
  apply createAppointment_row in E. destruct E as (Ed & Ha & _).
  assert (Hsel : In appointment
                    (reminder_candidates tz now' (appointmentsTable (db w1)))).
  { unfold reminder_candidates, Sql.select_where. apply filter_In. split.
    - cbn [w1 db]. rewrite Ed. cbn [appointmentsTable].
      apply in_or_app. right. now left.
    - apply reminder_condition_true. rewrite Ha. cbn. split; [lia |].
      split; [now left | now left]. }
  split; [exact Hsel |].
  intros Hd. split; [| split; reflexivity].
  rewrite sendNextDayReminders_table. unfold mark_rows.
  rewrite (getAppointmentById_patched
             (fun r => existsb (fun a => (id r =? id a)
                                         && reminder_delivered transport a)
                               (reminder_candidates tz now'
                                  (appointmentsTable (db w1))))
             (reminded now')).
  cbn [w1 db]. rewrite Hget.
  cbn [option_map].
  replace (existsb _ _) with true; [reflexivity |].
  symmetry. apply existsb_exists. exists appointment.
  split; [exact Hsel |]. now rewrite Z.eqb_refl, Hd.
Qed.

(** X12. From a status update to reminders.  Once a status update has set
    a status other than Received and Confirmed, the reminder job selects no
    row of the updated id, at whatever time it runs; for the rows of other
    ids the update changes nothing in what the job selects. *)
Theorem closed_appointment_not_reminded :
  forall (now : Date) (d : Database) (input : UpdateAppointmentStatusInput.t)
         (tz : Z) (now' : Date),
    UpdateAppointmentStatusInput.status input <> Received ->
    UpdateAppointmentStatusInput.status input <> Confirmed ->
    let table' := appointmentsTable (snd (updateAppointmentStatus now d input)) in
    (forall r, In r (reminder_candidates tz now' table') ->
               id r <> UpdateAppointmentStatusInput.id input)
    /\ (forall r, id r <> UpdateAppointmentStatusInput.id input ->
                  (In r (reminder_candidates tz now' table')
                   <-> In r (reminder_candidates tz now'
                                                 (appointmentsTable d)))).
Proof.
  intros now d input tz now' H1 H2 table'.
  subst table'. unfold updateAppointmentStatus, Sql.update_where.
  cbn [snd appointmentsTable]. set (v := {| set_status := _ |}).
  set (target := UpdateAppointmentStatusInput.id input).
  unfold reminder_candidates, Sql.select_where. split.
  - intros r Hr Hid. apply filter_In in Hr. destruct Hr as [Hin Hc].
    apply in_map_iff in Hin. destruct Hin as (r0 & E & _).
    apply reminder_condition_true in Hc. destruct Hc as (_ & Hs & _).
    unfold Sql.eq_id in E. destruct (Z.eqb_spec (id r0) target) as [E0 | E0].
    + subst r. cbn in Hs. destruct Hs; congruence.
    + subst r. contradiction.
  - intros r Hid. rewrite !filter_In.
    assert (Hin : In r (map (fun r0 => if Sql.eq_id target r0
                                       then apply_set v r0 else r0)
                            (appointmentsTable d))
                  <-> In r (appointmentsTable d)).
    { rewrite in_map_iff. unfold Sql.eq_id. split.
      - intros (r0 & E & Hr0).
        destruct (Z.eqb_spec (id r0) target) as [E0 | E0].
        + subst r. cbn in Hid. contradiction.
        + now subst r.
      - intros Hr. exists r. split; [| exact Hr].
        destruct (Z.eqb_spec (id r) target); [contradiction | reflexivity]. }
    now rewrite Hin.
Qed.

(** ** Filters of the list query *)

Lemma getAppointments_In (table : list Appointment)
    (filter : option GetAppointmentsFilter.t) (a : Appointment) :
  In a (getAppointments table filter)
  <-> In a table /\ matches_filter filter a.
Proof.
  unfold getAppointments, getAppointments_rows.
  rewrite select_conditions_filter, <- getAppointments_conditions_true,
    <- filter_In.
  split; apply Permutation_in;
    [symmetry |]; apply order_by_desc_Permutation.
Qed.

(** X13. Filters narrow.  A filter that asks everything another filter
    asks, and possibly more, returns only appointments the other returns;
    and every filter returns only appointments the unfiltered query
    returns. *)
Theorem getAppointments_narrows :
  forall (table : list Appointment) (f g : GetAppointmentsFilter.t)
         (a : Appointment),
    (narrows g f ->
     In a (getAppointments table (Some g)) ->
     In a (getAppointments table (Some f)))
    /\ (In a (getAppointments table (Some f)) ->
        In a (getAppointments table None)).
Proof.
  intros table f g a. rewrite !getAppointments_In. split.
  - intros (N1 & N2 & N3 & N4) [Hin Hm]. split; [exact Hin |].
    intros f' E. injection E as <-.
    destruct (Hm g eq_refl) as (M1 & M2 & M3 & M4).
    repeat split.
    + intros s Hs. apply M1, N1, Hs.
    + intros d Hd. apply M2, N2, Hd.
    + intros d Hd. apply M3, N3, Hd.
    + intros s Hs. apply M4, N4, Hs.
  - intros [Hin _]. split; [exact Hin | discriminate].
Qed.

Lemma status_and_dates_condition (s : option AppointmentStatus)
    (from to : option Date) (a : Appointment) :
  Sql.and_ (getAppointments_conditions (Some (status_and_dates s from to))) a
  = in_status_and_dates s from to a.
Proof.
  unfold in_status_and_dates, Sql.and_.
  destruct s, from, to; cbn; unfold Sql.eq_status, Sql.gte, Sql.lte;
    rewrite ?andb_true_r, ?andb_assoc; reflexivity.
Qed.

(** X14. A filter on status and dates returns exactly the stored
    appointments that have the status, if one is asked, and whose
    preferred date is within the bounds given, both bounds included: each
    such row once per occurrence in the table and no other row.  Without
    any filter, and with a filter that sets nothing, every stored
    appointment is returned. *)
Theorem getAppointments_status_and_dates :
  forall (table : list Appointment) (s : option AppointmentStatus)
         (from to : option Date),
    Permutation (filter (in_status_and_dates s from to) table)
                (getAppointments table (Some (status_and_dates s from to)))
    /\ Permutation table (getAppointments table None)
    /\ Permutation table
         (getAppointments table (Some (status_and_dates None None None))).
Proof.
  intros table s from to. unfold getAppointments, getAppointments_rows.
  rewrite <- !order_by_desc_Permutation, !select_conditions_filter.
  split; [| split].
  - erewrite filter_ext; [reflexivity |].
    intros a. symmetry. apply status_and_dates_condition.
  - cbn. induction table as [| r table IH]; [reflexivity |].
    cbn. now constructor.
  - cbn. induction table as [| r table IH]; [reflexivity |].
    cbn. now constructor.
Qed.

(** ** The search term *)

Lemma like_percent (p s : string) :
  Sql.like (String "%" p) s
  = Sql.like p s
    || match s with
       | EmptyString => false
       | String _ s' => Sql.like (String "%" p) s'
       end.
Proof. destruct s; reflexivity. Qed.

Lemma like_percent_true (p s : string) :
  Sql.like (String "%" p) s = true
  <-> exists before rest, s = (before ++ rest)%string /\ Sql.like p rest = true.
Proof.
  induction s as [| c s IH]; rewrite like_percent, orb_true_iff.
  - split.
    + intros [H | H]; [| discriminate]. exists "", "". now split.
    + intros (b & r & E & H). left.
      destruct b; [| discriminate]. cbn in E. now subst r.
  - rewrite IH. split.
    + intros [H | (b & r & E & H)].
      * exists "", (String c s). now split.
      * exists (String c b), r. split; [cbn; now rewrite E | exact H].
    + intros (b & r & E & H). destruct b as [| x b].
      * left. cbn in E. now subst r.
      * right. cbn in E. injection E as _ E. exists b, r. now split.
Qed.

Lemma like_plain_char (c : ascii) (p s : string) :
  wildcard c = false ->
  Sql.like (String c p) s
  = match s with
    | EmptyString => false
    | String x s' => Ascii.eqb x c && Sql.like p s'
    end.
Proof.
  unfold wildcard. intros H.
  apply orb_false_iff in H. destruct H as [H H3].
  apply orb_false_iff in H. destruct H as [H1 H2].
  cbn [Sql.like]. now rewrite H1, H2, H3.
Qed.

Lemma like_plain_prefix (t q s : string) :
  plain_term t = true ->
  (Sql.like (t ++ q) s = true
   <-> exists rest, s = (t ++ rest)%string /\ Sql.like q rest = true).
Proof.
  revert s. induction t as [| c t IH]; intros s Hp.
  - cbn. split; [intros H; now exists s | now intros (r & -> & H)].
  - cbn in Hp. apply andb_true_iff in Hp. destruct Hp as [Hc Hp].
    apply negb_true_iff in Hc.
    cbn [append]. rewrite (like_plain_char c _ s Hc).
    destruct s as [| x s].
    + split; [discriminate | intros (r & E & _); discriminate].
    + rewrite andb_true_iff, Ascii.eqb_eq, (IH s Hp). split.
      * intros (-> & r & -> & H). now exists r.
      * intros (r & E & H). injection E as -> ->. split; [reflexivity |].
        now exists r.
Qed.

Lemma like_only_percent (s : string) : Sql.like "%" s = true.
Proof.
  apply like_percent_true. exists s, "". split; [| reflexivity].
  induction s as [| c s IH]; cbn; [reflexivity | now rewrite <- IH].
Qed.

Lemma like_contains (t s : string) :
  plain_term t = true ->
  (Sql.like ("%" ++ t ++ "%") s = true <-> occurs t s).
Proof.
  intros Hp. cbn [append]. rewrite like_percent_true. unfold occurs. split.
  - intros (b & r & -> & H). apply (like_plain_prefix t "%" r Hp) in H.
    destruct H as (post & -> & _). now exists b, post.
  - intros (b & post & ->). exists b, (t ++ post)%string.
    split; [reflexivity |]. apply (like_plain_prefix t "%" _ Hp).
    exists post. split; [reflexivity | apply like_only_percent].
Qed.

Lemma wildcard_lower (c : ascii) : wildcard (Js.lower c) = wildcard c.
Proof. destruct c as [[] [] [] [] [] [] [] []]; reflexivity. Qed.

Lemma plain_term_toLower (t : string) :
  plain_term (Sql.toLower t) = plain_term t.
Proof.
  induction t as [| c t IH]; [reflexivity |].
  cbn. now rewrite wildcard_lower, IH.
Qed.

Lemma toLower_app (s t : string) :
  Sql.toLower (s ++ t) = (Sql.toLower s ++ Sql.toLower t)%string.
Proof. induction s as [| c s IH]; cbn; [reflexivity | now rewrite IH]. Qed.

Lemma ilike_contains (col : Appointment -> option string) (t : string)
    (a : Appointment) :
  plain_term t = true ->
  (Sql.ilike col ("%" ++ t ++ "%") a = true
   <-> exists v, col a = Some v /\ occurs_ignoring_case t v).
Proof.
  intros Hp. unfold Sql.ilike, occurs_ignoring_case.
  destruct (col a) as [v |].
  - rewrite !toLower_app.
    change (Sql.toLower "%") with "%".
    rewrite like_contains by (now rewrite plain_term_toLower).
    split; [intros H; now exists v | intros (v' & E & H)].
    now injection E as <-.
  - split; [discriminate | intros (v & E & _); discriminate].
Qed.

(** X15. For a search term without percent sign, underscore and backslash,
    a row matches exactly when the term occurs, letter case apart, in its
    name, in its phone or in its e-mail; a phone or e-mail that is null
    matches nothing. *)
Theorem search_is_substring_match :
  forall (term : string) (a : Appointment),
    plain_term term = true ->
    (search_condition term a = true
     <-> occurs_ignoring_case term (name a)
         \/ (exists p, phone a = Some p /\ occurs_ignoring_case term p)
         \/ (exists e, email a = Some e /\ occurs_ignoring_case term e)).
Proof.
  intros term a Hp. unfold search_condition, Sql.or_. cbn [existsb].
  rewrite !orb_true_iff.
  rewrite (ilike_contains (fun r => Some (name r)) term a Hp).
  rewrite (ilike_contains phone term a Hp).
  rewrite (ilike_contains email term a Hp).
  split.
  - intros [(v & E & H) | [H | [H | H]]];
      [injection E as <-; now left | tauto | tauto | discriminate].
  - intros [H | [H | H]]; [left; now exists (name a) | tauto | tauto].
Qed.

Lemma append_empty (s : string) : (s ++ "")%string = s.
Proof. induction s as [| c s IH]; cbn; [reflexivity | now rewrite IH]. Qed.

Lemma like_percent_run (n : nat) (q : string) :
  Sql.like (run "%" n ++ q) "" = Sql.like q "".
Proof.
  induction n as [| n IH]; [reflexivity |].
  cbn [run append]. rewrite like_percent, IH. apply orb_false_r.
Qed.

Lemma toLower_run (c : ascii) (n : nat) :
  Js.lower c = c -> Sql.toLower (run c n) = run c n.
Proof.
  intros H. induction n as [| n IH]; cbn; [reflexivity | now rewrite H, IH].
Qed.

Lemma toLower_length (s : string) :
  String.length (Sql.toLower s) = String.length s.
Proof. induction s as [| c s IH]; cbn; [reflexivity | now rewrite IH]. Qed.

Lemma ilike_percent_run (col : Appointment -> option string) (n : nat)
    (a : Appointment) :
  Sql.ilike col ("%" ++ run "%" n ++ "%") a = true
  <-> exists v, col a = Some v.
Proof.
  unfold Sql.ilike. destruct (col a) as [v |].
  - split; [intros _; now exists v | intros _].
    rewrite !toLower_app, toLower_run by reflexivity.
    change (Sql.toLower "%") with "%". cbn [append].
    apply like_percent_true. exists (Sql.toLower v), "".
    split; [now rewrite append_empty |].
    now rewrite (like_percent_run n "%").
  - split; [discriminate | intros (v & E); discriminate].
Qed.

Lemma like_underscore_run (n : nat) (q s : string) :
  Sql.like (run "_" n ++ q) s = true
  <-> exists skipped rest,
        s = (skipped ++ rest)%string /\ String.length skipped = n
        /\ Sql.like q rest = true.
Proof.
  revert s. induction n as [| n IH]; intros s.
  - cbn. split.
    + intros H. exists "", s. now repeat split.
    + intros (u & r & -> & Hl & H). destruct u; [exact H | discriminate].
  - cbn [run append]. cbn [Sql.like].
    change (Ascii.eqb "_" "%") with false.
    change (Ascii.eqb "_" "_") with true. cbv iota.
    destruct s as [| x s].
    + split; [discriminate |].
      intros (u & r & E & Hl & _). destruct u; discriminate.
    + rewrite IH. split.
      * intros (u & r & -> & Hl & H). exists (String x u), r.
        repeat split; [cbn; now rewrite Hl | exact H].
      * intros (u & r & E & Hl & H). destruct u as [| y u]; [discriminate |].
        cbn in E, Hl. injection E as _ ->. exists u, r.
        repeat split; [lia | exact H].
Qed.

Lemma split_at (n : nat) (s : string) :
  (n <= String.length s)%nat ->
  exists skipped rest,
    s = (skipped ++ rest)%string /\ String.length skipped = n.
Proof.
  revert s. induction n as [| n IH]; intros s H.
  - exists "", s. now split.
  - destruct s as [| c s]; [cbn in H; lia |].
    destruct (IH s) as (u & r & -> & Hl); [cbn in H; lia |].
    exists (String c u), r. split; [reflexivity | cbn; now rewrite Hl].
Qed.

Lemma append_length (s t : string) :
  String.length (s ++ t) = (String.length s + String.length t)%nat.
Proof. induction s as [| c s IH]; cbn; [reflexivity | now rewrite IH]. Qed.

Lemma ilike_underscore_run (col : Appointment -> option string) (n : nat)
    (a : Appointment) :
  Sql.ilike col ("%" ++ run "_" n ++ "%") a = true
  <-> exists v, col a = Some v /\ (n <= String.length v)%nat.
Proof.
  unfold Sql.ilike. destruct (col a) as [v |].
  - rewrite !toLower_app, toLower_run by reflexivity.
    change (Sql.toLower "%") with "%". cbn [append].
    rewrite like_percent_true. split.
    + intros (b & r & E & H). apply like_underscore_run in H.
      destruct H as (u & r' & -> & Hl & _). exists v. split; [reflexivity |].
      rewrite <- (toLower_length v), E, !append_length. lia.
    + intros (v' & E & Hn). injection E as <-.
      rewrite <- toLower_length in Hn.
      destruct (split_at n _ Hn) as (u & r & E & Hl).
      exists "", (Sql.toLower v). split; [reflexivity |].
      apply like_underscore_run. exists u, r.
      repeat split; [exact E | exact Hl | apply like_only_percent].
  - split; [discriminate | intros (v & E & _); discriminate].
Qed.

(** X16. The search term is read as a pattern.  A term made of percent
    signs only (the empty run included) matches every row, whatever its
    fields hold; a term made of [n] underscores matches exactly the rows
    with a name, phone or e-mail of at least [n] characters.  Neither
    character needs to occur in the row. *)
Theorem search_wildcards :
  forall (n : nat) (a : Appointment),
    search_condition (run "%" n) a = true
    /\ (search_condition (run "_" n) a = true
        <-> (n <= String.length (name a))%nat
            \/ (exists p, phone a = Some p /\ (n <= String.length p)%nat)
            \/ (exists e, email a = Some e /\ (n <= String.length e)%nat)).
Proof.
  intros n a. unfold search_condition, Sql.or_. cbn [existsb]. split.
  - apply orb_true_iff. left.
    apply (ilike_percent_run (fun r => Some (name r))). now exists (name a).
  - rewrite !orb_true_iff.
    rewrite (ilike_underscore_run (fun r => Some (name r)) n a).
    rewrite (ilike_underscore_run phone n a).
    rewrite (ilike_underscore_run email n a).
    split.
    + intros [(v & E & H) | [H | [H | H]]];
        [injection E as <-; now left | tauto | tauto | discriminate].
    + intros [H | [H | H]]; [left; now exists (name a) | tauto | tauto].
Qed.

(** ** Reading the export back *)

Lemma append_assoc (s t u : string) :
  ((s ++ t) ++ u)%string = (s ++ (t ++ u))%string.
Proof. induction s as [| c s IH]; cbn; [reflexivity | now rewrite IH]. Qed.

Lemma csv_read_after_quote (field : string) (record : list string)
    (tail : string) :
  delimited tail ->
  csv_read AfterQuote field record tail = csv_read Unquoted field record tail.
Proof.
  destruct tail as [| c tail]; [reflexivity |].
  intros [-> | ->]; reflexivity.
Qed.

Lemma csv_read_plain (s : string) :
  forall (field : string) (record : list string) (tail : string),
    (Js.includes s Js.comma || Js.includes s Js.dquote
     || Js.includes s Js.LF || Js.includes s Js.CR) = false ->
    csv_read Unquoted field record (s ++ tail)
    = csv_read Unquoted (field ++ s) record tail.
Proof.
  induction s as [| c s IH]; intros field record tail H.
  - cbn. now rewrite append_empty.
  - cbn [Js.includes] in H.
    repeat match type of H with
           | _ || _ = false =>
               apply orb_false_iff in H; destruct H as [H ?]
           end.
    repeat match goal with
           | Hx : _ || _ = false |- _ =>
               apply orb_false_iff in Hx; destruct Hx
           end.
    cbn [append csv_read].
    replace (Ascii.eqb c Js.dquote) with false by (symmetry; assumption).
    replace (Ascii.eqb c Js.comma) with false by (symmetry; assumption).
    replace (Ascii.eqb c Js.LF) with false by (symmetry; assumption).
    rewrite IH.
    + now rewrite append_assoc.
    + repeat (apply orb_false_iff; split); assumption.
Qed.

Lemma csv_read_quoted (s : string) :
  forall (field : string) (record : list string) (tail : string),
    csv_read InQuoted field record
             (Js.double_quotes s ++ String Js.dquote tail)
    = csv_read AfterQuote (field ++ s) record tail.
Proof.
  induction s as [| c s IH]; intros field record tail.
  - cbn. now rewrite append_empty.
  - cbn [Js.double_quotes]. destruct (Ascii.eqb c Js.dquote) eqn:E.
    + apply Ascii.eqb_eq in E. subst c. cbn [append csv_read].
      change (Ascii.eqb Js.dquote Js.dquote) with true. cbv iota.
      rewrite IH. now rewrite append_assoc.
    + cbn [append csv_read]. rewrite E, IH. now rewrite append_assoc.
Qed.

Lemma csv_read_escaped (s : string) (record : list string) (tail : string) :
  delimited tail ->
  csv_read Unquoted "" record (escapeCSV (JsStr s) ++ tail)
  = csv_read Unquoted s record tail.
Proof.
  intros Hd. unfold escapeCSV. cbn [String_of].
  destruct (Js.includes s Js.comma || Js.includes s Js.dquote
            || Js.includes s Js.LF || Js.includes s Js.CR) eqn:E.
  - cbn [append]. rewrite append_assoc. cbn [append csv_read].
    change (Ascii.eqb Js.dquote Js.dquote) with true. cbv iota.
    rewrite csv_read_quoted. cbn [append].
    now apply csv_read_after_quote.
  - now rewrite csv_read_plain.
Qed.

Lemma csv_read_record (fields : list string) :
  forall (s : string) (record : list string) (tail : string),
    delimited tail ->
    csv_read Unquoted "" record
             (Js.join "," (map (fun x => escapeCSV (JsStr x)) (s :: fields))
              ++ tail)
    = csv_read Unquoted (last (s :: fields) "")
               (record ++ removelast (s :: fields))%list tail.
Proof.
  induction fields as [| s' fields IH]; intros s record tail Hd.
  - cbn [map Js.join String.concat last removelast].
    rewrite app_nil_r. now apply csv_read_escaped.
  - change (Js.join "," (map (fun x => escapeCSV (JsStr x))
                             (s :: s' :: fields)))
      with (escapeCSV (JsStr s)
            ++ String Js.comma
                 (Js.join "," (map (fun x => escapeCSV (JsStr x))
                                   (s' :: fields))))%string.
    rewrite append_assoc. cbn [append].
    rewrite csv_read_escaped by (now left).
    destruct s as [| c s].
    + cbn [csv_read]. change (Ascii.eqb Js.comma Js.dquote) with false.
      change (Ascii.eqb Js.comma Js.comma) with true. cbv iota.
      rewrite IH by assumption.
      change (removelast ("" :: s' :: fields))
        with ("" :: removelast (s' :: fields)).
      change (last ("" :: s' :: fields) "") with (last (s' :: fields) "").
      now rewrite <- app_assoc.
    + cbn [csv_read]. change (Ascii.eqb Js.comma Js.dquote) with false.
      change (Ascii.eqb Js.comma Js.comma) with true. cbv iota.
      rewrite IH by assumption.
      change (removelast (String c s :: s' :: fields))
        with (String c s :: removelast (s' :: fields)).
      change (last (String c s :: s' :: fields) "")
        with (last (s' :: fields) "").
      now rewrite <- app_assoc.
Qed.

Lemma csv_read_line (s : string) (fields : list string) :
  csv_read Unquoted "" []
           (Js.join "," (map (fun x => escapeCSV (JsStr x)) (s :: fields)))
  = Some [s :: fields]
  /\ forall more,
       csv_read Unquoted "" []
                (Js.join "," (map (fun x => escapeCSV (JsStr x)) (s :: fields))
                 ++ String Js.LF more)
       = option_map (cons (s :: fields)) (csv_read Unquoted "" [] more).
Proof.
  assert (E : (removelast (s :: fields) ++ [last (s :: fields) ""])%list
              = s :: fields)
    by (symmetry; apply app_removelast_last; discriminate).
  split.
  - rewrite <- (append_empty (Js.join _ _)).
    rewrite csv_read_record by exact I.
    destruct (last (s :: fields) ""); cbn [csv_read app]; now rewrite E.
  - intros more. rewrite csv_read_record by (now right).
    destruct (last (s :: fields) "") eqn:L; cbn [csv_read app];
      change (Ascii.eqb Js.LF Js.dquote) with false;
      change (Ascii.eqb Js.LF Js.comma) with false;
      change (Ascii.eqb Js.LF Js.LF) with true; cbv iota;
      now rewrite E.
Qed.

(** A document of at least one record, every record of at least one
    field, is read back as it was written. *)
Lemma csv_read_document (records : list (list string)) :
  forall (first : list string),
    Forall (fun r => r <> []) (first :: records) ->
    csv_parse
      (Js.join (String Js.LF "")
         (map (fun r => Js.join "," (map (fun x => escapeCSV (JsStr x)) r))
              (first :: records)))
    = Some (first :: records).
Proof.
  unfold csv_parse.
  induction records as [| second records IH]; intros first H;
    destruct first as [| s fields];
    try (apply Forall_inv in H; congruence).
  - cbn [map Js.join String.concat]. apply csv_read_line.
  - change (Js.join (String Js.LF "")
              (map (fun r => Js.join "," (map (fun x => escapeCSV (JsStr x))
                                              r))
                   ((s :: fields) :: second :: records)))
      with (Js.join "," (map (fun x => escapeCSV (JsStr x)) (s :: fields))
            ++ String Js.LF
                 (Js.join (String Js.LF "")
                    (map (fun r => Js.join ","
                                     (map (fun x => escapeCSV (JsStr x)) r))
                         (second :: records))))%string.
    rewrite (proj2 (csv_read_line s fields)), IH; [reflexivity |].
    now apply Forall_inv_tail in H.
Qed.

(** The reader recovers the header and the values of the exported rows. *)
Lemma csv_parse_export (number_toString : JsNumber -> string)
    (table : list Appointment) (filter : option GetAppointmentsFilter.t) :
  csv_parse (exportAppointmentsCSV number_toString table filter)
  = Some (csv_headers
          :: map (csv_values number_toString)
                 (exportAppointmentsCSV_rows table filter)).
Proof.
  unfold exportAppointmentsCSV. cbv zeta.
  rewrite (map_ext
             (fun a => Js.join "," (csv_row number_toString a))
             (fun a => Js.join ","
                         (map (fun x => escapeCSV (JsStr x))
                              (csv_values number_toString a))))
    by (intros a; now rewrite csv_row_values).
  rewrite <- (map_map (csv_values number_toString)
                (fun r => Js.join ","
                            (map (fun x => escapeCSV (JsStr x)) r))).
  change (Js.join "," csv_headers)
    with (Js.join "," (map (fun x => escapeCSV (JsStr x)) csv_headers)).
  apply (csv_read_document
           (map (csv_values number_toString)
                (exportAppointmentsCSV_rows table filter))
           csv_headers).
  constructor; [discriminate |].
  apply Forall_map, Forall_forall. intros a _. discriminate.
Qed.

(** X17. The export reads back.  Whatever the stored values hold, commas,
    quotes and line breaks included, a CSV reader recovers from the
    exported text the header names as the first record and then, for each
    exported appointment in turn, its fifteen values, a null value as the
    empty string; so the text has one record more than there are exported
    appointments, and every record has fifteen fields. *)
Theorem exportAppointmentsCSV_reads_back :
  forall (number_toString : JsNumber -> string) (table : list Appointment)
         (filter : option GetAppointmentsFilter.t),
    csv_parse (exportAppointmentsCSV number_toString table filter)
    = Some (csv_headers
            :: map (csv_values number_toString)
                   (exportAppointmentsCSV_rows table filter))
    /\ Forall (fun record => List.length record = 15%nat)
              (csv_headers
               :: map (csv_values number_toString)
                      (exportAppointmentsCSV_rows table filter)).
Proof.
  intros number_toString table filter. split.
  - apply csv_parse_export.
  - constructor; [reflexivity |].
    apply Forall_map, Forall_forall. intros a _. reflexivity.
Qed.

(** ** Address and coordinates in the export *)

Lemma includes_append (s t : string) (c : ascii) :
  Js.includes (s ++ t) c = Js.includes s c || Js.includes t c.
Proof.
  induction s as [| x s IH]; cbn; [reflexivity |].
  now rewrite IH, orb_assoc.
Qed.

Lemma escapeCSV_with_comma (s : string) :
  Js.includes s Js.comma = true -> escapeCSV (JsStr s) = csv_quoted s.
Proof.
  intros H. unfold escapeCSV. cbn [String_of]. rewrite H. cbn [orb].
  apply double_quotes_quoted.
Qed.

Lemma join_two_includes_comma (x y : string) (l : list string) :
  Js.includes (Js.join ", " (x :: y :: l)) Js.comma = true.
Proof.
  change (Js.join ", " (x :: y :: l))
    with (x ++ ", " ++ Js.join ", " (y :: l))%string.
  rewrite !includes_append. cbn. now rewrite orb_true_r.
Qed.

Lemma join_nonempty (x : string) (l : list string) :
  x <> "" -> Js.join ", " (x :: l) <> "".
Proof.
  intros H. destruct l as [| y l]; [exact H |].
  change (Js.join ", " (x :: y :: l))
    with (x ++ ", " ++ Js.join ", " (y :: l))%string.
  destruct x; [congruence | discriminate].
Qed.

(** X18. The address column is empty exactly when none of the seven
    address parts holds a non-empty string, and it is written in quotes
    whenever two or more parts do.  The coordinates column is empty exactly
    when the latitude or the longitude is null, and otherwise it is always
    written in quotes, however the numbers are rendered. *)
Theorem address_and_coordinates_columns :
  forall (number_toString : JsNumber -> string) (a : Appointment),
    (formatAddress a = ""
     <-> filter Js.truthy (address_parts a) = [])
    /\ ((2 <= List.length (filter Js.truthy (address_parts a)))%nat ->
        escapeCSV (JsStr (formatAddress a)) = csv_quoted (formatAddress a))
    /\ (formatCoordinates number_toString (lat a) (lng a) = ""
        <-> lat a = None \/ lng a = None)
    /\ (lat a <> None -> lng a <> None ->
        escapeCSV (JsStr (formatCoordinates number_toString (lat a) (lng a)))
        = csv_quoted (formatCoordinates number_toString (lat a) (lng a))).
Proof.
  intros number_toString a. unfold formatAddress. fold (address_parts a).
  split; [| split; [| split]].
  - destruct (filter Js.truthy (address_parts a)) as [| p parts] eqn:E.
    + split; reflexivity.
    + split; [| discriminate]. intros H. exfalso.
      assert (Hp : In p (filter Js.truthy (address_parts a)))
        by (rewrite E; now left).
      apply filter_In in Hp. destruct Hp as [_ Hp].
      destruct p as [[| c s] |]; try discriminate.
      cbn [map] in H. revert H. apply join_nonempty. discriminate.
  - destruct (filter Js.truthy (address_parts a)) as [| p [| q parts]];
      cbn [List.length]; try lia.
    intros _. apply escapeCSV_with_comma. cbn [map].
    apply join_two_includes_comma.
  - unfold formatCoordinates. destruct (lat a), (lng a).
    + split; [| intros [H | H]; discriminate].
      intros H. exfalso. revert H.
      destruct (number_toString j); discriminate.
    + split; [now right | reflexivity].
    + split; [now left | reflexivity].
    + split; [now left | reflexivity].
  - intros H1 H2. unfold formatCoordinates.
    destruct (lat a); [| congruence]. destruct (lng a); [| congruence].
    apply escapeCSV_with_comma. rewrite !includes_append. cbn.
    now rewrite orb_true_r.
Qed.

(** ** The dispatcher *)

(** X19. The calls of the notification dispatcher: it keeps the outbox it
    finds and adds, for the appointment at hand only, a customer e-mail
    exactly when the e-mail is a non-empty string, a customer message
    exactly when the phone is, and always the administrator's e-mail and
    message, two to four calls in all.  Which calls are made does not
    depend on whether any of them delivers. *)
Theorem sendAppointmentNotifications_calls :
  forall (transport transport' : Transport) (a : Appointment)
         (box : list Attempt),
    sendAppointmentNotifications transport a box
    = sendAppointmentNotifications transport' a box
    /\ exists calls,
         sendAppointmentNotifications transport a box = (box ++ calls)%list
         /\ (2 <= List.length calls <= 4)%nat
         /\ Forall (fun c => attempt_appointment c = id a) calls
         /\ (In (attempt CustomerEmailNotification a) calls
             <-> Js.truthy (email a) = true)
         /\ (In (attempt CustomerWhatsAppNotification a) calls
             <-> Js.truthy (phone a) = true)
         /\ In (attempt AdminEmailNotification a) calls
         /\ In (attempt AdminWhatsAppNotification a) calls.
Proof.
  intros transport transport' a box.
  rewrite !sendAppointmentNotifications_fan_out. split; [reflexivity |].
  eexists. split; [reflexivity |].
  destruct (Js.truthy (email a)), (Js.truthy (phone a)); cbn;
    (split; [lia |]); (split; [repeat constructor |]);
    unfold attempt; intuition congruence.
Qed.

(** ** An empty phone *)

(** X20. The contact check of intake is met by a phone that is the empty
    string: such an input with no e-mail, and otherwise valid, is accepted
    and stored.  For the row it stores no customer call is ever made:
    neither the dispatcher nor the reminder job treats the empty phone as
    a contact, and no reminder for it is ever delivered. *)
Theorem empty_phone_is_accepted :
  forall (is_email : string -> bool) (real : RealColumn) (tz : Z)
         (now : Date) (w : World) (input : CreateAppointmentInput.t),
    CreateAppointmentInput.phone input = Some "" ->
    CreateAppointmentInput.email input = None ->
    valid_input is_email tz now input ->
    takes real (CreateAppointmentInput.lat input)
    /\ takes real (CreateAppointmentInput.lng input) ->
    exists response appointment db',
      createAppointment real now (db w) input = Some (appointment, db')
      /\ Router.createAppointment is_email real tz now w input
         = (Router.Ok response, {| db := db'; outbox := outbox w |})
      /\ AppointmentCreatedResponse.appointment response = appointment
      /\ In appointment (appointmentsTable db')
      /\ reminder_attempts appointment = []
      /\ (forall transport, reminder_delivered transport appointment = false)
      /\ (forall transport box,
             sendAppointmentNotifications transport appointment box
             = (box ++ [attempt AdminEmailNotification appointment;
                        attempt AdminWhatsAppNotification appointment])%list).
Proof.
  intros is_email real tz now w input Hp He Hv Ht.
  apply createAppointment_takes with (now := now) (db := db w) in Ht.
  destruct (createAppointment real now (db w) input) as [[a d'] |] eqn:E;
    [| congruence].
  pose proof (createAppointment_row real now (db w) input a d' E)
    as (Ed & Ha & _).
  assert (Hpa : phone a = Some "") by (rewrite Ha; exact Hp).
  assert (Hea : email a = None) by (rewrite Ha; exact He).
  eexists. exists a, d'.
  split; [reflexivity |]. split; [| split; [| split; [| split; [| split]]]].
  - unfold Router.createAppointment.
    rewrite (proj2 (schema_accepts is_email tz now input) Hv), E.
    reflexivity.
  - reflexivity.
  - rewrite Ed. cbn. apply in_or_app. right. now left.
  - unfold reminder_attempts. now rewrite Hpa, Hea.
  - intros transport. unfold reminder_delivered. now rewrite Hpa, Hea.
  - intros transport box. rewrite sendAppointmentNotifications_fan_out.
    now rewrite Hpa, Hea.
Qed.

(** ** Counts of the reminder job *)

(** X21. The counts of a run of the reminder job: [sent] is at most
    [processed], which is at most the number of stored appointments; the
    table has as many rows after the run as before.  With the senders as
    the sources have them, which never fail, [sent] is the number of
    selected appointments with a non-empty e-mail or phone. *)
Theorem sendNextDayReminders_counts :
  forall (transport : Transport) (tz : Z) (now : Date) (w : World),
    let stats := fst (sendNextDayReminders transport tz now w) in
    let w' := snd (sendNextDayReminders transport tz now w) in
    0 <= sent stats <= processed stats
    /\ processed stats <= Z.of_nat (List.length (appointmentsTable (db w)))
    /\ List.length (appointmentsTable (db w'))
       = List.length (appointmentsTable (db w))
    /\ sent (fst (sendNextDayReminders stub_transport tz now w))
       = Z.of_nat
           (List.length
              (filter (fun a => Js.truthy (email a) || Js.truthy (phone a))
                      (reminder_candidates tz now
                         (appointmentsTable (db w))))).
Proof.
  intros transport tz now w. cbv zeta. unfold sendNextDayReminders.
  rewrite !reminder_loop.
  cbn [fst snd processed sent db appointmentsTable].
  assert (H1 := filter_length_le (reminder_delivered transport)
                  (reminder_candidates tz now (appointmentsTable (db w)))).
  assert (H2 := filter_length_le (reminder_condition tz now)
                  (appointmentsTable (db w))).
  unfold reminder_candidates, Sql.select_where in *.
  split; [lia |]. split; [lia |]. split.
  - unfold mark_rows. apply length_map.
  - rewrite Z.add_0_l. do 2 f_equal. apply filter_ext. intros a.
    unfold reminder_delivered, stub_transport.
    now rewrite !andb_true_r.
Qed.

(** ** The export against the list query *)

(** X22. On a filter whose search term has no white space at either end,
    the export and the list query agree on the rows: the export renders the
    rows the list query returns, each as often, and the records a CSV
    reader recovers after the header are the values of those rows, in
    whatever order the table yields them. *)
Theorem exportAppointmentsCSV_same_rows :
  forall (number_toString : JsNumber -> string) (table : list Appointment)
         (filter : option GetAppointmentsFilter.t),
    search_is_trimmed filter ->
    Permutation (exportAppointmentsCSV_rows table filter)
                (getAppointments table filter)
    /\ exists records,
         csv_parse (exportAppointmentsCSV number_toString table filter)
         = Some (csv_headers :: records)
         /\ Permutation records
                        (map (csv_values number_toString)
                             (getAppointments table filter)).
Proof.
  intros number_toString table filter Htrim.
  pose proof (export_rows_when_trimmed table filter Htrim) as Hrows.
  split; [exact Hrows |].
  exists (map (csv_values number_toString)
              (exportAppointmentsCSV_rows table filter)).
  split.
  - apply csv_parse_export.
  - apply Permutation_map. exact Hrows.
Qed.

(** ** The properties on the samples *)

Lemma first_intake_reachable :
  reachable sample_is_email sample_real first_intake_world.
Proof.
  eapply reachable_step; [apply reachable_start |].
  exact (step_createAppointment sample_is_email sample_real IST sample_now
                                empty_world (sample_input sample_due)).
Defined.

Lemma first_reminder_reachable :
  reachable sample_is_email sample_real first_reminder_world.
Proof.
  eapply reachable_step; [apply first_intake_reachable |].
  exact (step_sendNextDayReminders sample_is_email sample_real
                                   stub_transport IST sample_now
                                   first_intake_world).
Defined.


Lemma reachable_keys_valid_witness : keys_valid (db first_reminder_world).
Proof.
  apply (reachable_keys_valid sample_is_email sample_real),
    first_reminder_reachable.
Defined.

Lemma reachable_rows_valid_witness :
  Forall (row_valid sample_is_email)
         (appointmentsTable (db first_reminder_world)).
Proof.
  apply (reachable_rows_valid sample_is_email sample_real),
    first_reminder_reachable.
Defined.

Lemma reachable_reminders_attempted_witness :
  Forall (fun r => last_reminder_sent_at r <> None ->
                   reminder_attempted (outbox first_reminder_world) (id r))
         (appointmentsTable (db first_reminder_world)).
Proof.
  apply (reachable_reminders_attempted sample_is_email sample_real),
    first_reminder_reachable.
Defined.

Lemma empty_database_keys_valid : keys_valid empty_database.
Proof.
  unfold keys_valid. cbn. split; [lia |]. split; constructor.
Defined.




(** The pinned input is accepted on the empty database and found under id
    1 with every field as given, the coordinates included. *)
Lemma getAppointmentById_after_create_witness :
  exists response w',
    Router.createAppointment sample_is_email sample_real IST sample_now
                             empty_world pinned_input
    = (Router.Ok response, w')
    /\ AppRouter.getAppointmentById w' 1
       = Some (AppointmentCreatedResponse.appointment response)
    /\ intake_of (AppointmentCreatedResponse.appointment response)
                 (notes (AppointmentCreatedResponse.appointment response))
       = pinned_input
    /\ AppRouter.getAppointmentById empty_world 1 = None.
Proof.
  eexists. eexists. split; [vm_compute; reflexivity |].
  destruct (getAppointmentById_after_create
              sample_is_email sample_real IST sample_now empty_world
              pinned_input _ _ empty_database_keys_valid eq_refl)
    as (H1 & _ & _ & _ & H5 & H6 & _).
  split; [exact H1 |]. split; [| exact H6].
  apply H5; intros x E; injection E as <-; reflexivity.
Defined.

Lemma updateAppointmentStatus_twice_witness :
  updateAppointmentStatus (sample_now + 60000)
    (snd (updateAppointmentStatus sample_now one_row_database
                                  confirm_with_notes))
    complete_first
  = updateAppointmentStatus (sample_now + 60000) one_row_database
      (update_after confirm_with_notes complete_first).
Proof.
  apply (updateAppointmentStatus_twice sample_now (sample_now + 60000)
           one_row_database confirm_with_notes complete_first).
  reflexivity.
Defined.

Lemma reminders_not_repeated_witness :
  In due_tomorrow (appointmentsTable (db reminder_world))
  /\ reminder_condition IST sample_now due_tomorrow
     && reminder_delivered flaky_transport due_tomorrow = false.
Proof.
  apply (reminders_not_repeated flaky_transport IST sample_now reminder_world
           IST (sample_now + 60000)).
  - cbn. repeat constructor; cbn; intuition discriminate.
  - vm_compute. reflexivity.
  - vm_compute. now left.
Defined.

Lemma created_appointment_is_reminded_witness :
  exists appointment d1,
    createAppointment sample_real sample_now empty_database
                      (sample_input sample_due)
    = Some (appointment, d1)
    /\ In appointment
          (reminder_candidates IST sample_now (appointmentsTable d1)).
Proof.
  eexists. eexists. split; [reflexivity |].
  apply (created_appointment_is_reminded stub_transport sample_real
           sample_now empty_database (sample_input sample_due) _ _ []
           IST sample_now empty_database_keys_valid eq_refl).
  vm_compute. split; [discriminate | reflexivity].
Defined.

(** In the sample table the appointments 1 and 6 are due.  Once the first
    is completed, no row of id 1 is selected, and the sixth still is. *)
Lemma closed_appointment_not_reminded_witness :
  In due_tomorrow
     (reminder_candidates IST sample_now
        (appointmentsTable (db reminder_world)))
  /\ In unreachable_tomorrow
        (reminder_candidates IST sample_now
           (appointmentsTable (db reminder_world)))
  /\ (forall r,
         In r (reminder_candidates IST sample_now
                 (appointmentsTable
                    (snd (updateAppointmentStatus sample_now
                            (db reminder_world) complete_first)))) ->
         id r <> 1)
  /\ In unreachable_tomorrow
        (reminder_candidates IST sample_now
           (appointmentsTable
              (snd (updateAppointmentStatus sample_now (db reminder_world)
                                            complete_first)))).
Proof.
  destruct (closed_appointment_not_reminded
              sample_now (db reminder_world) complete_first IST sample_now
              ltac:(discriminate) ltac:(discriminate))
    as [H1 H2].
  assert (H6 : In unreachable_tomorrow
                  (reminder_candidates IST sample_now
                     (appointmentsTable (db reminder_world))))
    by (vm_compute; tauto).
  split; [vm_compute; tauto |]. split; [exact H6 |].
  split; [exact H1 |].
  apply (H2 unreachable_tomorrow); [discriminate | exact H6].
Defined.

Lemma search_is_substring_match_witness :
  search_condition "rao" due_tomorrow = true
  <-> occurs_ignoring_case "rao" (name due_tomorrow)
      \/ (exists p, phone due_tomorrow = Some p
                     /\ occurs_ignoring_case "rao" p)
      \/ (exists e, email due_tomorrow = Some e
                     /\ occurs_ignoring_case "rao" e).
Proof.
  apply (search_is_substring_match "rao" due_tomorrow). reflexivity.
Defined.

Lemma received_rao_trimmed : search_is_trimmed (Some received_rao).
Proof.
  intros f s E1 E2. injection E1 as <-. cbn in E2. injection E2 as <-.
  reflexivity.
Defined.

Lemma exportAppointmentsCSV_same_rows_witness :
  Permutation (exportAppointmentsCSV_rows bookings (Some received_rao))
              (getAppointments bookings (Some received_rao)).
Proof.
  exact (proj1 (exportAppointmentsCSV_same_rows integral_toString bookings
                  (Some received_rao) received_rao_trimmed)).
Defined.

Lemma empty_phone_input_valid :
  valid_input sample_is_email IST sample_now empty_phone_input.
Proof.
  apply schema_accepts. vm_compute. reflexivity.
Defined.

Lemma empty_phone_input_taken :
  takes sample_real (CreateAppointmentInput.lat empty_phone_input)
  /\ takes sample_real (CreateAppointmentInput.lng empty_phone_input).
Proof.
  split; intros x E; injection E as <-; discriminate.
Defined.

Lemma empty_phone_is_accepted_witness :
  exists appointment db',
    createAppointment sample_real sample_now empty_database empty_phone_input
    = Some (appointment, db')
    /\ In appointment (appointmentsTable db')
    /\ reminder_attempts appointment = []
    /\ forall transport, reminder_delivered transport appointment = false.
Proof.
  destruct (empty_phone_is_accepted
              sample_is_email sample_real IST sample_now empty_world
              empty_phone_input eq_refl eq_refl empty_phone_input_valid
              empty_phone_input_taken)
    as (response & appointment & db' & E & _ & _ & H3 & H4 & H5 & _).
  exists appointment, db'.
  split; [exact E |]. split; [exact H3 |]. split; [exact H4 | exact H5].
Defined.
